(** * Susceptibility distortion correction workflows (fmriprep/workflows/fieldmap/unwarp.py)

    A shallow embedding of the two workflow builders [init_sdc_unwarp_wf] and
    [init_pepolar_unwarp_report_wf] and of the helper functions that the
    workflows run inside their [Function] nodes, together with the properties
    of the built graphs and of the helpers.

    Conventions of the embedding:
    - a workflow is the list of its nodes and the list of its edges, in the
      order in which [workflow.connect] adds them; nodes are identified by
      their [name], as the engine does;
    - a Python exception is a value of [exn]; a function that can raise
      returns a [result];
    - files are a finite map from paths to images; a function that writes a
      file returns the new file store together with its return value;
    - voxel values are IEEE 754 doubles, the arrays being of type [float64]:
      the arithmetic is that of the kernel's primitive floats, specified by
      [SpecFloat], with rounding to nearest, ties to even. *)

From Stdlib Require Import Ascii String ZArith Lia Bool Floats Sorted.
From stdpp Require Import gmap strings list fin_maps.

Local Open Scope string_scope.
Local Open Scope list_scope.
Local Open Scope nat_scope.

(** ** Exceptions and results *)

Inductive exn :=
| KeyError (key : string)
| IndexError
| AttributeError
| FileNotFoundError (path : string).

Inductive result (A : Type) :=
| Ok (a : A)
| Raise (e : exn).
Arguments Ok {A} a.
Arguments Raise {A} e.

(** Sequencing: the first exception raised aborts the computation. *)
#[global] Instance result_bind : MBind result := λ A B k r,
  match r with
  | Ok a => k a
  | Raise e => Raise e
  end.

#[global] Instance result_ret : MRet result := λ A a, Ok a.

Definition is_ok {A} (r : result A) : bool :=
  match r with Ok _ => true | Raise _ => false end.

(** [d[key]] on a Python dict. *)
Definition getitem {V} (d : gmap string V) (key : string) : result V :=
  match d !! key with
  | Some v => Ok v
  | None => Raise (KeyError key)
  end.

Fixpoint mapM {A B} (f : A → result B) (l : list A) : result (list B) :=
  match l with
  | [] => Ok []
  | a :: l' => b ← f a; bs ← mapM f l'; Ok (b :: bs)
  end.

(** ** The workflow engine's graph *)

Module Engine.

(** The helper functions that the source attaches to a connection,
    [(('out_dict', _get_ec), 'dwell_time')]. *)
Inductive helper :=
| h_get_ec
| h_get_pedir_fugue
| h_get_pedir_bids
| h_pick_first.

(** The interfaces the two builders instantiate, with those of their
    arguments that differ between the nodes of the source. *)
Inductive interface :=
| IdentityInterface (fields : list string)
| ReadSidecarJSON
| ApplyMask
| ANTSRegistrationRPT (from_file : string) (num_threads : nat)
| DerivativesDataSink (base_directory : string) (suffix : string)
| ANTSApplyTransformsRPT (generate_report : bool) (interpolation : string)
| Function (function : string)
| FUGUE (save_unmasked_shift : bool)
| FUGUEvsm2ANTSwarp
| CreateJacobianDeterminantImage (outputImage : string)
| ComputeEPIMask (generate_report : bool) (dilation : nat)
| N4BiasFieldCorrection (dimension : nat)
| CopyHeader
| MergeLists (numinputs : nat)
| MergeImages (dimension : string)
| TOPUP
| BinaryMaths (operation : string).

(** A value assigned to [node.inputs.<port>] at build time. *)
Inductive inval :=
| IStr (s : string)
| IStrs (l : list string)
| IDicts (l : list (gmap string string)).

(** [pe.Node] has no iterfield; [pe.MapNode] lists the ports it maps over. *)
Record node := Node {
  n_name : string;
  n_iface : interface;
  n_iterfield : option (list string);
  n_inputs : list (string * inval)
}.

Record edge := Edge {
  e_src : string;
  e_src_port : string;
  e_via : option helper;
  e_dst : string;
  e_dst_port : string
}.

Record Workflow := Wf {
  wf_name : string;
  wf_nodes : list node;
  wf_edges : list edge
}.

Definition mk_node (i : interface) (name : string) : node :=
  Node name i None [].

Definition mk_mapnode (i : interface) (iterfield : list string) (name : string) : node :=
  Node name i (Some iterfield) [].

(** [n.inputs.port = v] *)
Definition set_input (n : node) (port : string) (v : inval) : node :=
  Node (n_name n) (n_iface n) (n_iterfield n) (n_inputs n ++ [(port, v)]).

Definition has_node (name : string) (ns : list node) : bool :=
  existsb (fun m => String.eqb (n_name m) name) ns.

Definition add_node (n : node) (ns : list node) : list node :=
  if has_node (n_name n) ns then ns else ns ++ [n].

(** One element of the list given to [workflow.connect]:
    [(src, dst, [(src_port, dst_port), ((src_port, f), dst_port), ...])]. *)
Definition conn := (node * node * list (string * option helper * string))%type.

Definition out (p : string) : string * option helper := (p, None).
Definition via (p : string) (f : helper) : string * option helper := (p, Some f).

Definition connect1 (wf : Workflow) (c : conn) : Workflow :=
  let '(s, d, ports) := c in
  Wf (wf_name wf)
     (add_node d (add_node s (wf_nodes wf)))
     (wf_edges wf ++
      map (fun '(sp, f, dp) => Edge (n_name s) sp f (n_name d) dp) ports).

(** [workflow.connect(cs)]: the nodes named in [cs] join the workflow and the
    edges are added, a list at a time. The checks that the engine makes on a
    connection are not part of the embedding, so that the properties of the
    edges below are those of the builders. *)
Definition connect (wf : Workflow) (cs : list conn) : Workflow :=
  fold_left connect1 cs wf.

Definition node_names (wf : Workflow) : list string :=
  map n_name (wf_nodes wf).

Definition find_node (wf : Workflow) (name : string) : option node :=
  find (fun m => String.eqb (n_name m) name) (wf_nodes wf).

(** The edges that feed input port [p] of node [d]. *)
Definition feeds (d p : string) (e : edge) : bool :=
  String.eqb (e_dst e) d && String.eqb (e_dst_port e) p.

Definition feeders (es : list edge) (d p : string) : list edge :=
  List.filter (feeds d p) es.

(** The edges that leave node [s]. *)
Definition out_edges (es : list edge) (s : string) : list edge :=
  List.filter (fun e => String.eqb (e_src e) s) es.

(** A directed path of at least one edge. *)
Inductive path (es : list edge) : string → string → Prop :=
| path_edge e : In e es → path es (e_src e) (e_dst e)
| path_step e m : In e es → path es (e_dst e) m → path es (e_src e) m.

Definition acyclic (es : list edge) : Prop := ∀ n, ¬ path es n n.

(** Node [n] is upstream of input port [p] of node [d]: the data arriving at
    the port is produced by [n] or computed from an output of [n]. *)
Definition upstream (es : list edge) (d p n : string) : Prop :=
  ∃ e, In e (feeders es d p) ∧ (e_src e = n ∨ path es n (e_src e)).

Definition unique_inputs (es : list edge) : Prop :=
  ∀ d p, List.length (feeders es d p) ≤ 1.

(** *** Executable checks *)

Fixpoint index_of (n : string) (l : list string) : nat :=
  match l with
  | [] => 0
  | m :: l' => if String.eqb m n then 0 else S (index_of n l')
  end.

(** Every edge goes forward in [order]. *)
Definition topo_ok (order : list string) (es : list edge) : bool :=
  forallb (fun e => index_of (e_src e) order <? index_of (e_dst e) order) es.

Definition unique_inputs_b (es : list edge) : bool :=
  forallb (fun e => List.length (feeders es (e_dst e) (e_dst_port e)) <=? 1) es.

Definition mem (n : string) (l : list string) : bool :=
  existsb (String.eqb n) l.

(** [ns] contains the source of every edge whose destination it contains. *)
Definition pred_closed (ns : list string) (es : list edge) : bool :=
  forallb (fun e => implb (mem (e_dst e) ns) (mem (e_src e) ns)) es.

End Engine.

Import Engine.

(** ** The fieldmap-based workflow *)

Definition pkgr_resource_filename (package resource : string) : string :=
  package +:+ "/" +:+ resource.

Definition init_sdc_unwarp_wf (reportlets_dir : string) (ants_nthreads : nat)
    (fmap_bspline fmap_demean debug : bool) (name : string) : Workflow :=
  let workflow := Wf name [] [] in
  let inputnode := mk_node (IdentityInterface
        ["in_reference"; "in_mask"; "name_source";
         "fmap_ref"; "fmap_mask"; "fmap"]) "inputnode" in
  let outputnode := mk_node (IdentityInterface
        ["out_reference"; "out_warp"; "out_mask";
         "out_jacobian"; "out_mask_report"]) "outputnode" in
  let meta := mk_node ReadSidecarJSON "meta" in
  let explicit_mask_epi := mk_node ApplyMask "explicit_mask_epi" in
  let ants_settings :=
    if debug
    then pkgr_resource_filename "fmriprep" "data/fmap-any_registration_testing.json"
    else pkgr_resource_filename "fmriprep" "data/fmap-any_registration.json" in
  let fmap2ref_reg :=
    mk_node (ANTSRegistrationRPT ants_settings ants_nthreads) "fmap2ref_reg" in
  let ds_reg := mk_node (DerivativesDataSink reportlets_dir "fmap_reg") "ds_reg" in
  let fmap2ref_apply :=
    mk_node (ANTSApplyTransformsRPT true "BSpline") "fmap2ref_apply" in
  let fmap_mask2ref_apply :=
    mk_node (ANTSApplyTransformsRPT false "NearestNeighbor") "fmap_mask2ref_apply" in
  let ds_reg_vsm :=
    mk_node (DerivativesDataSink reportlets_dir "fmap_reg_vsm") "ds_reg_vsm" in
  let torads := mk_node (Function "_hz2rads") "torads" in
  let gen_vsm := mk_node (FUGUE true) "gen_vsm" in
  let vsm2dfm := mk_node FUGUEvsm2ANTSwarp "vsm2dfm" in
  let jac_dfm := mk_node (CreateJacobianDeterminantImage "jacobian.nii.gz") "jac_dfm" in
  let unwarp_reference :=
    mk_node (ANTSApplyTransformsRPT false "LanczosWindowedSinc") "unwarp_reference" in
  let fieldmap_fov_mask := mk_node (Function "_fill_with_ones") "fieldmap_fov_mask" in
  let fmap_fov2ref_apply :=
    mk_node (ANTSApplyTransformsRPT false "NearestNeighbor") "fmap_fov2ref_apply" in
  let apply_fov_mask := mk_node ApplyMask "apply_fov_mask" in
  let ref_msk_post := mk_node (ComputeEPIMask true 1) "ref_msk_post" in
  let workflow := connect workflow [
    (inputnode, meta, [(out "name_source", "in_file")]);
    (inputnode, explicit_mask_epi, [(out "in_reference", "in_file");
                                    (out "in_mask", "mask_file")]);
    (inputnode, fmap2ref_reg, [(out "fmap_ref", "moving_image")]);
    (inputnode, fmap2ref_apply, [(out "in_reference", "reference_image")]);
    (fmap2ref_reg, fmap2ref_apply, [(out "composite_transform", "transforms")]);
    (inputnode, fmap_mask2ref_apply, [(out "in_reference", "reference_image")]);
    (fmap2ref_reg, fmap_mask2ref_apply, [(out "composite_transform", "transforms")]);
    (inputnode, ds_reg_vsm, [(out "name_source", "source_file")]);
    (fmap2ref_apply, ds_reg_vsm, [(out "out_report", "in_file")]);
    (explicit_mask_epi, fmap2ref_reg, [(out "out_file", "fixed_image")]);
    (inputnode, ds_reg, [(out "name_source", "source_file")]);
    (fmap2ref_reg, ds_reg, [(out "out_report", "in_file")]);
    (inputnode, fmap2ref_apply, [(out "fmap", "input_image")]);
    (inputnode, fmap_mask2ref_apply, [(out "fmap_mask", "input_image")]);
    (fmap2ref_apply, torads, [(out "output_image", "in_file")]);
    (meta, gen_vsm, [(via "out_dict" h_get_ec, "dwell_time");
                     (via "out_dict" h_get_pedir_fugue, "unwarp_direction")]);
    (meta, vsm2dfm, [(via "out_dict" h_get_pedir_bids, "pe_dir")]);
    (torads, gen_vsm, [(out "out", "fmap_in_file")]);
    (vsm2dfm, unwarp_reference, [(out "out_file", "transforms")]);
    (inputnode, unwarp_reference, [(out "in_reference", "reference_image")]);
    (inputnode, unwarp_reference, [(out "in_reference", "input_image")]);
    (vsm2dfm, outputnode, [(out "out_file", "out_warp")]);
    (vsm2dfm, jac_dfm, [(out "out_file", "deformationField")]);
    (inputnode, fieldmap_fov_mask, [(out "fmap_ref", "in_file")]);
    (fieldmap_fov_mask, fmap_fov2ref_apply, [(out "out", "input_image")]);
    (inputnode, fmap_fov2ref_apply, [(out "in_reference", "reference_image")]);
    (fmap2ref_reg, fmap_fov2ref_apply, [(out "composite_transform", "transforms")]);
    (fmap_fov2ref_apply, apply_fov_mask, [(out "output_image", "mask_file")]);
    (unwarp_reference, apply_fov_mask, [(out "output_image", "in_file")]);
    (apply_fov_mask, ref_msk_post, [(out "out_file", "in_file")]);
    (apply_fov_mask, outputnode, [(out "out_file", "out_reference")]);
    (ref_msk_post, outputnode, [(out "mask_file", "out_mask")]);
    (ref_msk_post, outputnode, [(out "out_report", "out_mask_report")]);
    (jac_dfm, outputnode, [(out "jacobian_image", "out_jacobian")])
  ] in
  let workflow :=
    if negb fmap_bspline
    then connect workflow [
      (fmap_mask2ref_apply, gen_vsm, [(out "output_image", "mask_file")])
    ]
    else workflow in
  let workflow :=
    if fmap_demean
    then
      let demean := mk_node (Function "_demean") "demean" in
      connect workflow [
        (gen_vsm, demean, [(out "shift_out_file", "in_file")]);
        (fmap_mask2ref_apply, demean, [(out "output_image", "in_mask")]);
        (demean, vsm2dfm, [(out "out", "in_file")])
      ]
    else
      connect workflow [
        (gen_vsm, vsm2dfm, [(out "shift_out_file", "in_file")])
      ] in
  workflow.

(** ** The PEPOLAR workflow *)

(** [[fmap['epi'] for fmap in fmaps]] *)
Definition epi_files (fmaps : list (gmap string string)) : result (list string) :=
  mapM (fun fmap => getitem fmap "epi") fmaps.

Definition init_pepolar_unwarp_report_wf (fmaps : list (gmap string string))
    (bids_dir : string) (name : string) : result Workflow :=
  let workflow := Wf name [] [] in
  let inputnode := mk_node (IdentityInterface
        ["in_reference"; "in_mask"; "name_source"]) "inputnode" in
  let outputnode := mk_node (IdentityInterface
        ["out_reference"; "out_warp"; "out_mask";
         "out_jacobian"; "out_mask_report"]) "outputnode" in
  let mag_inu := mk_mapnode (N4BiasFieldCorrection 3) ["input_image"] "mag_inu" in
  epis ← epi_files fmaps;
  let mag_inu := set_input mag_inu "input_image" (IStrs epis) in
  let cphdr := mk_mapnode CopyHeader ["hdr_file"; "in_file"] "cphdr" in
  epis ← epi_files fmaps;
  let cphdr := set_input cphdr "hdr_file" (IStrs epis) in
  let skullstrip := mk_mapnode (ComputeEPIMask false 1) ["in_file"] "skullstrip" in
  let apply_skullstrip :=
    mk_mapnode ApplyMask ["mask_file"; "in_file"] "apply_skullstrip" in
  epis ← epi_files fmaps;
  let apply_skullstrip := set_input apply_skullstrip "in_file" (IStrs epis) in
  let explicit_mask_epi := mk_node ApplyMask "explicit_mask_epi" in
  let merge_list := mk_node (MergeLists 2) "merge_list" in
  let merge := mk_node (MergeImages "t") "merge" in
  let generate_idata := mk_node (Function "_generate_idata") "generate_idata" in
  let generate_idata := set_input generate_idata "bids_dir" (IStr bids_dir) in
  let generate_idata := set_input generate_idata "fmaps" (IDicts fmaps) in
  let topup := mk_node TOPUP "topup" in
  let to_ants := mk_node (Function "_add_dimension") "to_ants" in
  let cphdr_warp := mk_node CopyHeader "cphdr_warp" in
  let unwarp_reference :=
    mk_node (ANTSApplyTransformsRPT false "LanczosWindowedSinc") "unwarp_reference" in
  let apply_jacobian := mk_node (BinaryMaths "mul") "apply_jacobian" in
  let ref_msk_post := mk_node (ComputeEPIMask true 1) "ref_msk_post" in
  let workflow := connect workflow [
    (inputnode, explicit_mask_epi, [(out "in_reference", "in_file");
                                    (out "in_mask", "mask_file")]);
    (inputnode, merge_list, [(out "in_reference", "in1")]);
    (mag_inu, cphdr, [(out "output_image", "in_file")]);
    (cphdr, skullstrip, [(out "out_file", "in_file")]);
    (skullstrip, apply_skullstrip, [(out "mask_file", "mask_file")]);
    (cphdr, merge_list, [(out "out_file", "in2")]);
    (merge_list, merge, [(out "out", "in_files")]);
    (inputnode, generate_idata, [(out "name_source", "name_source")]);
    (generate_idata, topup, [(out "out", "encoding_file")]);
    (merge, topup, [(out "merged_file", "in_file")]);
    (inputnode, cphdr_warp, [(out "in_reference", "hdr_file")]);
    (topup, cphdr_warp, [(via "out_warps" h_pick_first, "in_file")]);
    (cphdr_warp, to_ants, [(out "out_file", "in_file")]);
    (to_ants, unwarp_reference, [(out "out", "transforms")]);
    (inputnode, unwarp_reference, [(out "in_reference", "reference_image")]);
    (inputnode, unwarp_reference, [(out "in_reference", "input_image")]);
    (unwarp_reference, apply_jacobian, [(out "output_image", "in_file")]);
    (topup, apply_jacobian, [(via "out_jacs" h_pick_first, "operand_file")]);
    (apply_jacobian, ref_msk_post, [(out "out_file", "in_file")]);
    (unwarp_reference, outputnode, [(out "output_image", "out_reference")]);
    (ref_msk_post, outputnode, [(out "mask_file", "out_mask")]);
    (ref_msk_post, outputnode, [(out "out_report", "out_mask_report")]);
    (to_ants, outputnode, [(out "out", "out_warp")]);
    (topup, outputnode, [(via "out_jacs" h_pick_first, "out_jacobian")])
  ] in
  Ok workflow.

(** The edges of the PEPOLAR graph, which do not depend on [fmaps]. *)
Definition pepolar_edges : list edge :=
  Eval vm_compute in
    match init_pepolar_unwarp_report_wf [] "" "" with
    | Ok wf => wf_edges wf
    | Raise _ => []
    end.

(** ** Helper functions: sequences and sidecar metadata *)

(** [l[0]] *)
Definition _pick_first {A} (l : list A) : result A :=
  match l with
  | x :: _ => Ok x
  | [] => Raise IndexError
  end.

(** A value of a sidecar dictionary: a string, or a number, which is kept as
    the text that [str] gives for it. *)
Inductive jvalue :=
| JStr (s : string)
| JNum (text : string).

Definition py_str (v : jvalue) : string :=
  match v with
  | JStr s => s
  | JNum t => t
  end.

(** A string method called on a value: a number has none. *)
Definition as_str (v : jvalue) : result string :=
  match v with
  | JStr s => Ok s
  | JNum _ => Raise AttributeError
  end.

(** [s.endswith(suffix)] *)
Fixpoint endswith (s suffix : string) : bool :=
  String.eqb s suffix ||
  match s with
  | EmptyString => false
  | String _ s' => endswith s' suffix
  end.

(** [s.replace(old, new)] for one-character [old] and [new]. *)
Fixpoint replace (old new : ascii) (s : string) : string :=
  match s with
  | EmptyString => EmptyString
  | String c s' => String (if Ascii.eqb c old then new else c) (replace old new s')
  end.

(** [sep.join(l)] *)
Fixpoint join (sep : string) (l : list string) : string :=
  match l with
  | [] => ""
  | [x] => x
  | x :: l' => x +:+ sep +:+ join sep l'
  end.

Definition newline : string := String "010"%char EmptyString.

Definition _get_pedir_bids (in_dict : gmap string jvalue) : result jvalue :=
  getitem in_dict "PhaseEncodingDirection".

Definition _get_pedir_fugue (in_dict : gmap string jvalue) : result string :=
  v ← getitem in_dict "PhaseEncodingDirection";
  s ← as_str v;
  Ok (replace "k" "z" (replace "j" "y" (replace "i" "x" s))).

(** ** The acquisition-parameter table *)

(** What [_generate_idata] reads: the shape of each image file, the metadata
    that the layout of a dataset gives for each file (an empty dictionary for
    a file without a sidecar), and the working directory. *)
Record dataset := Dataset {
  ds_shape : gmap string (list nat);
  ds_layout : string → gmap string (gmap string jvalue);
  ds_cwd : string
}.

(** [nb.load(in_file).shape] *)
Definition nb_load_shape (ds : dataset) (in_file : string) : result (list nat) :=
  match ds_shape ds !! in_file with
  | Some sh => Ok sh
  | None => Raise (FileNotFoundError in_file)
  end.

Definition get_metadata (layout : gmap string (gmap string jvalue))
    (in_file : string) : gmap string jvalue :=
  default ∅ (layout !! in_file).

Definition os_path_abspath (ds : dataset) (f : string) : string :=
  ds_cwd ds +:+ "/" +:+ f.

(** [{'i': 0, 'j': 1, 'k': 2}] *)
Definition pe_axes : gmap string nat :=
  <["i" := 0]> (<["j" := 1]> (<["k" := 2]> ∅)).

(** The body of the loop of [_gen_line]: the four entries of one line. *)
Definition gen_line_arr (layout : gmap string (gmap string jvalue))
    (in_file : string) : result (list string) :=
  let line_arr := ["0"; "0"; "0"; "0"] in
  let meta := get_metadata layout in_file in
  trt ← getitem meta "TotalReadoutTime";
  let line_arr := <[3 := py_str trt]> line_arr in
  ped ← getitem meta "PhaseEncodingDirection";
  ped ← as_str ped;
  let dir := if endswith ped "-" then "-1" else "1" in
  axis ← getitem pe_axes (substring 0 1 ped);
  let line_arr := <[axis := dir]> line_arr in
  Ok line_arr.

(** [for i in range(vols): body], accumulating the text of the lines. *)
Fixpoint for_range (vols : nat) (body : string → result string)
    (lines : string) : result string :=
  match vols with
  | 0 => Ok lines
  | S n => lines ← body lines; for_range n body lines
  end.

Definition _gen_line (ds : dataset) (layout : gmap string (gmap string jvalue))
    (in_file : string) (oneline : bool) : result string :=
  let lines := "" in
  shape ← nb_load_shape ds in_file;
  vols ← (if (List.length shape =? 3) || oneline
          then Ok 1
          else match shape !! 3 with
               | Some v => Ok v
               | None => Raise IndexError
               end);
  let vols := 1 in
  for_range vols (fun lines =>
    line_arr ← gen_line_arr layout in_file;
    Ok (lines +:+ join " " line_arr +:+ newline)) lines.

(** The text of a file after the strings of [l] were written to it in
    order. *)
Definition written (l : list string) : string :=
  fold_right String.append "" l.

(** The function returns the path of the file it writes; the embedding
    returns the text written to it as well. *)
Definition _generate_idata (ds : dataset) (name_source : string)
    (fmaps : list (gmap string string)) (bids_dir : string)
    : result (string * string) :=
  let out_file := os_path_abspath ds "idata.txt" in
  let layout := ds_layout ds bids_dir in
  first ← _gen_line ds layout name_source true;
  rest ← mapM (fun fmap =>
                 epi ← getitem fmap "epi";
                 _gen_line ds layout epi false) fmaps;
  Ok (out_file, first +:+ written rest).

(** ** Images *)

(** A voxel is an IEEE 754 double, the element type [float64] of the arrays
    that [get_data] returns here: [float] is the kernel's type of doubles,
    whose [*], [-], [+] and [/] round to the nearest double, ties to even,
    whose comparisons are false on not-a-number, and whose zero has a sign. *)

(** [v > 0] *)
Definition gt0 (v : float) : bool := (0 <? v)%float.

(** Equality of voxel values as numbers; not-a-number equals itself only. *)
Definition feq (a b : float) : Prop :=
  (a =? b)%float = true ∨ (is_nan a = true ∧ is_nan b = true).

Definition is_num (v : float) : Prop := is_nan v = false.

(** [math.pi] *)
Definition pi : float := 0x1.921fb54442d18p+1%float.

(** An image: the array (its shape and its voxels in row-major order of
    their indices, the last axis running fastest), the affine and the
    header. *)
Record image := Image {
  shape : list nat;
  dataobj : list float;
  affine : list (list float);
  header : gmap string string
}.

(** [nb.load(path)] *)
Definition nb_load (fs : gmap string image) (path : string) : result image :=
  match fs !! path with
  | Some img => Ok img
  | None => Raise (FileNotFoundError path)
  end.

(** The number of voxels of an array of shape [sh]. *)
Definition size_of (sh : list nat) : nat := fold_right Nat.mul 1 sh.

(** The voxels of [data] at the places where a mask of the same shape is
    positive. *)
Definition select (data msk : list float) : list float :=
  List.map fst (List.filter (fun p => gt0 (snd p)) (combine data msk)).

(** The same for an index with fewer axes than the array: an element of the
    index stands for a block of [k] voxels, all kept or all dropped. *)
Fixpoint block_select (k : nat) (data msk : list float) : list float :=
  match msk with
  | [] => []
  | m :: msk' =>
      (if gt0 m then take k data else []) ++ block_select k (drop k data) msk'
  end.

(** [data[msk > 0]]: the shape of the boolean index must be the shape of the
    leading axes of the array, as many as the index has; the axes that
    remain are taken whole. *)
Definition boolean_index (nii msk : image) : result (list float) :=
  let n := List.length (shape msk) in
  if decide (shape msk = take n (shape nii))
  then Ok (block_select (size_of (drop n (shape nii))) (dataobj nii) (dataobj msk))
  else Raise IndexError.

Fixpoint insert_sorted (x : float) (l : list float) : list float :=
  match l with
  | [] => [x]
  | y :: l' => if (x <=? y)%float then x :: l else y :: insert_sorted x l'
  end.

Definition sort (l : list float) : list float := fold_right insert_sorted [] l.

(** The middle element of a sorted list, or the mean of the two middle
    elements; the mean of no element is not-a-number. *)
Definition median_sorted (s : list float) : float :=
  let n := List.length s in
  if Nat.odd n
  then match s !! (n / 2) with
       | Some x => x
       | None => nan
       end
  else match s !! (n / 2 - 1), s !! (n / 2) with
       | Some a, Some b => ((a + b) / 2)%float
       | _, _ => nan
       end.

(** [np.median(l)]: not-a-number when [l] holds one or is empty. *)
Definition np_median (l : list float) : float :=
  if existsb is_nan l then nan else median_sorted (sort l).

(** What a helper wrote: the path it returns and the image stored there. *)
Definition written_image (r : result (string * gmap string image))
    : option (string * image) :=
  match r with
  | Ok (path, fs) => pair path <$> fs !! path
  | Raise _ => None
  end.

Section Helpers.

(** [fmriprep.utils.misc.genfname], which is not part of this file. *)
Variable genfname : string → string → string.

Definition default_name (in_file suffix : string) (out_file : option string)
    : string :=
  match out_file with
  | None => genfname in_file suffix
  | Some f => f
  end.

(** Transform a fieldmap in Hz into rad/s. *)
Definition _hz2rads (in_file : string) (out_file : option string)
    (fs : gmap string image) : result (string * gmap string image) :=
  let out_file := default_name in_file "rads" out_file in
  nii ← nb_load fs in_file;
  let data := List.map (fun v => (v * 2 * pi)%float) (dataobj nii) in
  Ok (out_file,
      <[out_file := Image (shape nii) data (affine nii) (header nii)]> fs).

Definition _demean (in_file in_mask : string) (out_file : option string)
    (fs : gmap string image) : result (string * gmap string image) :=
  let out_file := default_name in_file "demeaned" out_file in
  nii ← nb_load fs in_file;
  msk ← nb_load fs in_mask;
  let data := dataobj nii in
  selected ← boolean_index nii msk;
  let data := List.map (fun v => (v - np_median selected)%float) data in
  Ok (out_file,
      <[out_file := Image (shape nii) data (affine nii) (header nii)]> fs).

End Helpers.

(** ** The remaining image helpers *)

(** [os.path.abspath(f)] in the working directory [cwd]. *)
Definition abspath (cwd f : string) : string := cwd +:+ "/" +:+ f.

(** [np.ones(sh)] *)
Definition np_ones (sh : list nat) : list float := repeat 1%float (size_of sh).

Definition _fill_with_ones (cwd in_file : string) (fs : gmap string image)
    : result (string * gmap string image) :=
  nii ← nb_load fs in_file;
  let data := np_ones (shape nii) in
  let out_name := abspath cwd "out.nii.gz" in
  Ok (out_name,
      <[out_name := Image (shape nii) data (affine nii) (header nii)]> fs).

(** [hdr.set_data_dtype(dtype)]: the header is the map of its fields, and the
    setter records the type and its width in bits. *)
Definition set_data_dtype (dtype bitpix : string) (hdr : gmap string string)
    : gmap string string :=
  <["bitpix" := bitpix]> (<["datatype" := dtype]> hdr).

(** [hdr.set_intent(code, (), name)]: with no parameters given the three
    parameter fields are set to zero. *)
Definition set_intent (code name : string) (hdr : gmap string string)
    : gmap string string :=
  <["intent_p3" := "0"]> (<["intent_p2" := "0"]> (<["intent_p1" := "0"]>
    (<["intent_name" := name]> (<["intent_code" := code]> hdr)))).

(** [field[:, :, :, np.newaxis, :]]: four axes are indexed, so an array of
    fewer axes raises; the new axis of length one stands after the third. *)
Definition newaxis_after_third (sh : list nat) : result (list nat) :=
  if 4 <=? List.length sh
  then Ok (take 3 sh ++ 1 :: drop 3 sh)
  else Raise IndexError.

Section AddDimension.

(** [x.astype(np.dtype('<f4'))] on one voxel: the rounding to single
    precision, which the embedding leaves open. *)
Variable astype_f4 : float → float.

Definition _add_dimension (cwd in_file : string) (fs : gmap string image)
    : result (string * gmap string image) :=
  nii ← nb_load fs in_file;
  let hdr := header nii in
  let hdr := set_data_dtype "<f4" "32" hdr in
  let hdr := set_intent "vector" "" hdr in
  let field := dataobj nii in
  field_shape ← newaxis_after_third (shape nii);
  let out_file := abspath cwd "warpfield.nii.gz" in
  Ok (out_file,
      <[out_file := Image field_shape (List.map astype_f4 field)
                          (affine nii) hdr]> fs).

End AddDimension.

(** * The vocabulary of the properties *)

(** *** The demean switch of the fieldmap workflow *)

(** The shift map of [gen_vsm] feeds [vsm2dfm] directly and the graph has no
    [demean] node. *)
Definition direct_topology (wf : Workflow) : Prop :=
  feeders (wf_edges wf) "vsm2dfm" "in_file" =
    [Edge "gen_vsm" "shift_out_file" None "vsm2dfm" "in_file"] ∧
  mem "demean" (node_names wf) = false ∧
  out_edges (wf_edges wf) "demean" = [] ∧
  feeders (wf_edges wf) "demean" "in_file" = [].

(** The [demean] node lies between [gen_vsm] and [vsm2dfm]: the only edge into
    [vsm2dfm.in_file] leaves [demean], the only edge into [demean.in_file]
    leaves [gen_vsm], and no edge goes from [gen_vsm] to [vsm2dfm]. *)
Definition demeaned_topology (wf : Workflow) : Prop :=
  mem "demean" (node_names wf) = true ∧
  feeders (wf_edges wf) "demean" "in_file" =
    [Edge "gen_vsm" "shift_out_file" None "demean" "in_file"] ∧
  out_edges (wf_edges wf) "demean" =
    [Edge "demean" "out" None "vsm2dfm" "in_file"] ∧
  feeders (wf_edges wf) "vsm2dfm" "in_file" =
    [Edge "demean" "out" None "vsm2dfm" "in_file"] ∧
  List.filter (fun e => String.eqb (e_dst e) "vsm2dfm")
              (out_edges (wf_edges wf) "gen_vsm") = [].

(** *** The inputs of the concatenation in the PEPOLAR workflow *)

(** The claimed wiring: the second input of the list that is concatenated is
    the output of the masking node. *)
Definition merge_gets_masked (wf : Workflow) : Prop :=
  feeders (wf_edges wf) "merge_list" "in1" =
    [Edge "inputnode" "in_reference" None "merge_list" "in1"] ∧
  feeders (wf_edges wf) "merge_list" "in2" =
    [Edge "apply_skullstrip" "out_file" None "merge_list" "in2"].

(** The wiring of the source: the second input is the output of [cphdr], the
    bias-corrected volumes with the headers of the original volumes, in the
    order of [fmaps]; the masking node [apply_skullstrip] feeds nothing. *)
Definition merge_gets_unmasked (fmaps : list (gmap string string))
    (wf : Workflow) : Prop :=
  feeders (wf_edges wf) "merge" "in_files" =
    [Edge "merge_list" "out" None "merge" "in_files"] ∧
  feeders (wf_edges wf) "merge_list" "in1" =
    [Edge "inputnode" "in_reference" None "merge_list" "in1"] ∧
  feeders (wf_edges wf) "merge_list" "in2" =
    [Edge "cphdr" "out_file" None "merge_list" "in2"] ∧
  feeders (wf_edges wf) "cphdr" "in_file" =
    [Edge "mag_inu" "output_image" None "cphdr" "in_file"] ∧
  (∃ epis,
     epi_files fmaps = Ok epis ∧
     find_node wf "mag_inu" =
       Some (Node "mag_inu" (N4BiasFieldCorrection 3) (Some ["input_image"])
                  [("input_image", IStrs epis)]) ∧
     find_node wf "cphdr" =
       Some (Node "cphdr" CopyHeader (Some ["hdr_file"; "in_file"])
                  [("hdr_file", IStrs epis)])) ∧
  find_node wf "merge_list" = Some (Node "merge_list" (MergeLists 2) None []) ∧
  find_node wf "merge" = Some (Node "merge" (MergeImages "t") None []) ∧
  out_edges (wf_edges wf) "apply_skullstrip" = [] ∧
  ¬ upstream (wf_edges wf) "merge" "in_files" "apply_skullstrip" ∧
  ¬ upstream (wf_edges wf) "merge" "in_files" "skullstrip".

Definition one_fmap : list (gmap string string) :=
  [{[ "epi" := "sub-01_dir-AP_epi.nii.gz" ]}].

(** The nodes from which the input of the concatenation is computed. *)
Definition merge_sources : list string :=
  ["merge_list"; "inputnode"; "cphdr"; "mag_inu"].

(** *** The Jacobian correction, acyclicity and feeding edges *)

(** The unwarped reference is multiplied by the first Jacobian map that the
    estimator returns, and the product feeds the mask recomputation. *)
Definition jacobian_applied (wf : Workflow) : Prop :=
  find_node wf "apply_jacobian" =
    Some (Node "apply_jacobian" (BinaryMaths "mul") None []) ∧
  feeders (wf_edges wf) "apply_jacobian" "in_file" =
    [Edge "unwarp_reference" "output_image" None "apply_jacobian" "in_file"] ∧
  feeders (wf_edges wf) "apply_jacobian" "operand_file" =
    [Edge "topup" "out_jacs" (Some h_pick_first) "apply_jacobian" "operand_file"] ∧
  feeders (wf_edges wf) "ref_msk_post" "in_file" =
    [Edge "apply_jacobian" "out_file" None "ref_msk_post" "in_file"].

(** The claimed delivery: [out_reference] is the product. *)
Definition out_reference_corrected (wf : Workflow) : Prop :=
  feeders (wf_edges wf) "outputnode" "out_reference" =
    [Edge "apply_jacobian" "out_file" None "outputnode" "out_reference"].

(** The delivery of the source: [out_reference] is the unwarped reference
    itself, in which the product has no part; the product goes to the mask
    recomputation only. *)
Definition out_reference_uncorrected (wf : Workflow) : Prop :=
  feeders (wf_edges wf) "outputnode" "out_reference" =
    [Edge "unwarp_reference" "output_image" None "outputnode" "out_reference"] ∧
  out_edges (wf_edges wf) "apply_jacobian" =
    [Edge "apply_jacobian" "out_file" None "ref_msk_post" "in_file"] ∧
  ¬ upstream (wf_edges wf) "outputnode" "out_reference" "apply_jacobian".

(** The nodes from which [out_reference] is computed. *)
Definition out_reference_sources : list string :=
  ["unwarp_reference"; "to_ants"; "cphdr_warp"; "topup"; "inputnode";
   "generate_idata"; "merge"; "merge_list"; "cphdr"; "mag_inu"].

(** A linear order of the nodes of each graph in which every edge goes
    forward. *)
Definition sdc_order : list string :=
  ["inputnode"; "meta"; "explicit_mask_epi"; "fmap2ref_reg"; "ds_reg";
   "fmap2ref_apply"; "fmap_mask2ref_apply"; "ds_reg_vsm"; "torads"; "gen_vsm";
   "demean"; "vsm2dfm"; "jac_dfm"; "unwarp_reference"; "fieldmap_fov_mask";
   "fmap_fov2ref_apply"; "apply_fov_mask"; "ref_msk_post"; "outputnode"].

Definition pepolar_order : list string :=
  ["inputnode"; "explicit_mask_epi"; "mag_inu"; "cphdr"; "skullstrip";
   "apply_skullstrip"; "merge_list"; "merge"; "generate_idata"; "topup";
   "cphdr_warp"; "to_ants"; "unwarp_reference"; "apply_jacobian";
   "ref_msk_post"; "outputnode"].

(** *** The acquisition-parameter table *)

(** One line of the table as text. *)
Definition render (row : list string) : string :=
  join " " row +:+ newline.

(** The row that belongs to a metadata dictionary: the axis is the one that
    the first letter of the phase-encoding direction names, its entry is [-1]
    when the direction ends with the sign marker and [1] otherwise, and the
    last entry is the readout time. *)
Definition pe_entry (meta : gmap string jvalue) (row : list string) : Prop :=
  ∃ trt ped axis,
    meta !! "TotalReadoutTime" = Some trt ∧
    meta !! "PhaseEncodingDirection" = Some (JStr ped) ∧
    pe_axes !! substring 0 1 ped = Some axis ∧
    row = <[axis := if endswith ped "-" then "-1" else "1"]>
            ["0"; "0"; "0"; py_str trt].

(** The metadata of a file has a readout time and a phase-encoding direction
    that starts with an axis letter. *)
Definition valid_meta (meta : gmap string jvalue) : Prop :=
  is_Some (meta !! "TotalReadoutTime") ∧
  ∃ ped, meta !! "PhaseEncodingDirection" = Some (JStr ped) ∧
         substring 0 1 ped ∈ ["i"; "j"; "k"].

(** The image can be loaded, and its shape has three axes or a fourth one
    (or only one line is asked for). *)
Definition readable (ds : dataset) (in_file : string) (oneline : bool) : Prop :=
  ∃ sh, ds_shape ds !! in_file = Some sh ∧
        (oneline = true ∨ List.length sh = 3 ∨ is_Some (sh !! 3)).

(** *** The table as the phase-encoding metadata describe it *)

(** What a row of the table says of one volume: the axis of phase encoding
    (0, 1 or 2), whether the polarity is negative, and the readout time as it
    is written. *)
Record acq_row := AcqRow {
  r_axis : nat;
  r_negative : bool;
  r_readout : string
}.

(** The line of a row: one entry for each of the three axes, [1] or [-1] at
    the axis of the row and [0] at the two others, then the readout time. *)
Definition row_text (r : acq_row) : string :=
  let entry i :=
    if r_axis r =? i then (if r_negative r then "-1" else "1") else "0" in
  entry 0 +:+ " " +:+ entry 1 +:+ " " +:+ entry 2 +:+ " " +:+ r_readout r
    +:+ newline.

(** The row that a metadata dictionary describes: the first character of
    [PhaseEncodingDirection] names the axis, a [-] at its end says that the
    polarity is negative, and the readout time is [TotalReadoutTime] as
    text. *)
Definition describes (meta : gmap string jvalue) (r : acq_row) : Prop :=
  ∃ c rest,
    meta !! "PhaseEncodingDirection" = Some (JStr (String c rest)) ∧
    ((c = "i"%char ∧ r_axis r = 0) ∨ (c = "j"%char ∧ r_axis r = 1) ∨
     (c = "k"%char ∧ r_axis r = 2)) ∧
    (r_negative r = true ↔ ∃ s, String c rest = s +:+ "-") ∧
    (meta !! "TotalReadoutTime" = Some (JStr (r_readout r)) ∨
     meta !! "TotalReadoutTime" = Some (JNum (r_readout r))).

(** The sidecar of a volume with a phase-encoding direction and a readout
    time. *)
Definition ex_meta (ped trt : string) : gmap string jvalue :=
  <["PhaseEncodingDirection" := JStr ped]> (<["TotalReadoutTime" := JNum trt]> ∅).

(** *** A dataset *)

(** A dataset with a 4D series, a 3D and a 4D opposite-phase file. *)
Definition ex_ds : dataset :=
  Dataset
    (<["sub-01_bold.nii.gz" := [64; 64; 30; 200]]>
       (<["sub-01_dir-AP_epi.nii.gz" := [64; 64; 30]]>
          (<["sub-01_dir-PA_epi.nii.gz" := [64; 64; 30; 3]]> ∅)))
    (fun _ =>
       <["sub-01_bold.nii.gz" :=
           <["PhaseEncodingDirection" := JStr "j-"]>
             (<["TotalReadoutTime" := JNum "0.0476"]> ∅)]>
         (<["sub-01_dir-AP_epi.nii.gz" :=
             <["PhaseEncodingDirection" := JStr "j-"]>
               (<["TotalReadoutTime" := JNum "0.05"]> ∅)]>
            (<["sub-01_dir-PA_epi.nii.gz" :=
                <["PhaseEncodingDirection" := JStr "j"]>
                  (<["TotalReadoutTime" := JNum "0.05"]> ∅)]> ∅)))
    "/work".

Definition ex_fmaps : list (gmap string string) :=
  [{[ "epi" := "sub-01_dir-AP_epi.nii.gz" ]};
   {[ "epi" := "sub-01_dir-PA_epi.nii.gz" ]}].

(** *** Phase-encoding codes outside the grammar *)

(** The first character of [ped] is not an axis letter ([ped] may be empty). *)
Definition bad_axis (ped : string) : Prop :=
  substring 0 1 ped ∉ ["i"; "j"; "k"].

(** *** A store of images *)

Definition ex_genfname (in_file suffix : string) : string :=
  in_file +:+ "_" +:+ suffix.

Definition ex_affine : list (list float) :=
  [[2; 0; 0; -90]; [0; 2; 0; -126]; [0; 0; 2; -72]; [0; 0; 0; 1]]%float.

Definition ex_header : gmap string string := {[ "descrip" := "shift map" ]}.

Definition ex_field : image :=
  Image [2; 2; 1] [3; -1; 0; 5]%float ex_affine ex_header.

Definition ex_mask : image :=
  Image [2; 2; 1] [1; 1; 0; 1]%float ex_affine ∅.

Definition ex_empty_mask : image :=
  Image [2; 2; 1] [0; 0; 0; 0]%float ex_affine ∅.



Definition ex_fs : gmap string image :=
  <["vsm.nii" := ex_field]>
    (<["mask.nii" := ex_mask]> (<["empty.nii" := ex_empty_mask]> ∅)).


(** *** The boundary of a workflow and the use of its nodes *)

(** The fields that the identity interface of node [name] declares. *)
Definition declared_fields (wf : Workflow) (name : string) : list string :=
  match find_node wf name with
  | Some (Node _ (IdentityInterface fields) _ _) => fields
  | _ => []
  end.

(** The edges that leave output port [p] of node [s]. *)
Definition port_edges (es : list edge) (s p : string) : list edge :=
  List.filter (fun e => String.eqb (e_src e) s && String.eqb (e_src_port e) p) es.

(** Every declared output is fed by one edge, every declared input is read
    by an edge, and the edges at the two boundary nodes use declared fields
    only. *)
Definition boundary_complete (wf : Workflow) : Prop :=
  (∀ f, In f (declared_fields wf "outputnode") →
        List.length (feeders (wf_edges wf) "outputnode" f) = 1) ∧
  (∀ f, In f (declared_fields wf "inputnode") →
        port_edges (wf_edges wf) "inputnode" f ≠ []) ∧
  (∀ e, In e (wf_edges wf) → e_src e = "inputnode" →
        In (e_src_port e) (declared_fields wf "inputnode")) ∧
  (∀ e, In e (wf_edges wf) → e_dst e = "outputnode" →
        In (e_dst_port e) (declared_fields wf "outputnode")) ∧
  (∀ p, feeders (wf_edges wf) "inputnode" p = []) ∧
  out_edges (wf_edges wf) "outputnode" = [].

Definition boundary_complete_b (wf : Workflow) : bool :=
  forallb (fun f => List.length (feeders (wf_edges wf) "outputnode" f) =? 1)
          (declared_fields wf "outputnode") &&
  forallb (fun f => negb (List.length (port_edges (wf_edges wf) "inputnode" f) =? 0))
          (declared_fields wf "inputnode") &&
  forallb (fun e => implb (String.eqb (e_src e) "inputnode")
                          (mem (e_src_port e) (declared_fields wf "inputnode")))
          (wf_edges wf) &&
  forallb (fun e => implb (String.eqb (e_dst e) "outputnode")
                          (mem (e_dst_port e) (declared_fields wf "outputnode")))
          (wf_edges wf) &&
  forallb (fun e => negb (String.eqb (e_dst e) "inputnode")) (wf_edges wf) &&
  forallb (fun e => negb (String.eqb (e_src e) "outputnode")) (wf_edges wf).

(** The names of the nodes are distinct and every edge joins two nodes of the
    workflow. *)
Definition well_formed_graph (wf : Workflow) : Prop :=
  NoDup (node_names wf) ∧
  ∀ e, In e (wf_edges wf) →
       In (e_src e) (node_names wf) ∧ In (e_dst e) (node_names wf).

Fixpoint nodup_b (l : list string) : bool :=
  match l with
  | [] => true
  | x :: l' => negb (mem x l') && nodup_b l'
  end.

Definition well_formed_graph_b (wf : Workflow) : bool :=
  nodup_b (node_names wf) &&
  forallb (fun e => mem (e_src e) (node_names wf) && mem (e_dst e) (node_names wf))
          (wf_edges wf).

(** The nodes of a workflow other than those named in [names]. *)
Definition nodes_except (names : list string) (wf : Workflow) : list node :=
  List.filter (fun m => negb (mem (n_name m) names)) (wf_nodes wf).

(** The nodes from which the reference delivered by the fieldmap workflow is
    computed: all but the Jacobian node, the report sinks and the nodes after
    the delivery. *)
Definition sdc_reference_sources : list string :=
  ["apply_fov_mask"; "fmap_fov2ref_apply"; "fieldmap_fov_mask"; "inputnode";
   "fmap2ref_reg"; "explicit_mask_epi"; "unwarp_reference"; "vsm2dfm"; "meta";
   "demean"; "gen_vsm"; "torads"; "fmap2ref_apply"; "fmap_mask2ref_apply"].

(** The nodes of the PEPOLAR workflow from which some output is computed. *)
Definition pepolar_output_sources : list string :=
  ["ref_msk_post"; "apply_jacobian"; "unwarp_reference"; "to_ants";
   "cphdr_warp"; "topup"; "inputnode"; "generate_idata"; "merge";
   "merge_list"; "cphdr"; "mag_inu"].

(** *** Vocabulary of the helper properties *)

(** The array of an image has as many voxels as its shape says. *)
Definition well_shaped (img : image) : Prop :=
  List.length (dataobj img) = size_of (shape img).

(** The double nearest to 2 pi. *)
Definition two_pi : float := 0x1.921fb54442d18p+2%float.

(** The mask is positive at place [i]. *)
Definition positive_at (msk : list float) (i : nat) : bool :=
  match msk !! i with
  | Some m => (0 <? m)%float
  | None => false
  end.

(** The voxels of [data], in the order of [data], at the places [i] where
    [P i] holds. *)
Definition voxels_where (P : nat → bool) (data : list float) : list float :=
  omap id (imap (fun i v => if P i then Some v else None) data).

Definition fle (a b : float) : Prop := (a <=? b)%float = true.

(** No element is greater than the next. *)
Definition nondecreasing (s : list float) : Prop :=
  ∀ i a b, s !! i = Some a → s !! S i = Some b → (a <=? b)%float = true.

(** [m] is the median of [l] in double arithmetic: not-a-number when [l]
    holds one or is empty; otherwise, with the elements of [l] put in
    nondecreasing order, the middle one when their number is odd and the
    mean [(a + b) / 2] of the two middle ones when it is even. *)
Definition is_median (l : list float) (m : float) : Prop :=
  (Exists (fun v => is_nan v = true) l ∧ m = nan) ∨
  (Forall (fun v => is_nan v = false) l ∧
   ∃ s, s ≡ₚ l ∧ nondecreasing s ∧
     let n := List.length s in
     if n =? 0 then m = nan
     else if Nat.odd n then s !! (n / 2) = Some m
     else ∃ a b, s !! (n / 2 - 1) = Some a ∧ s !! (n / 2) = Some b ∧
                 m = ((a + b) / 2)%float).

(** A double that is neither zero nor not-a-number, of sign [s]. *)
Definition signed (s : bool) (x : spec_float) : Prop :=
  (∃ m e, x = S754_finite s m e) ∨ x = S754_infinity s.

(** The direction letter of FUGUE for an axis letter; other characters stand
    for themselves. *)
Definition fugue_axis (c : ascii) : ascii :=
  if Ascii.eqb c "i" then "x"
  else if Ascii.eqb c "j" then "y"
  else if Ascii.eqb c "k" then "z"
  else c.

Fixpoint string_map (f : ascii → ascii) (s : string) : string :=
  match s with
  | EmptyString => EmptyString
  | String c s' => String (f c) (string_map f s')
  end.

Fixpoint string_forall (P : ascii → bool) (s : string) : bool :=
  match s with
  | EmptyString => true
  | String c s' => P c && string_forall P s'
  end.

(** The replacements of [_get_pedir_fugue] undone. *)
Definition fugue_to_bids (s : string) : string :=
  replace "x" "i" (replace "y" "j" (replace "z" "k" s)).

Definition no_fugue_letter (c : ascii) : bool :=
  negb (Ascii.eqb c "x" || Ascii.eqb c "y" || Ascii.eqb c "z").

Definition no_axis_letter_b (c : ascii) : bool :=
  negb (Ascii.eqb c "i" || Ascii.eqb c "j" || Ascii.eqb c "k").

(** The number of occurrences of a character. *)
Fixpoint count_char (c : ascii) (s : string) : nat :=
  match s with
  | EmptyString => 0
  | String c' s' => (if Ascii.eqb c' c then 1 else 0) + count_char c s'
  end.

(** *** More images for the store *)

(** A mask with grey values that is positive where the mask of the store is. *)
Definition ex_mask_grey : image :=
  Image [2; 2; 1] [7; 0.5; -3; 255]%float ex_affine ∅.

(** A warp of three components on the grid of the store's field. *)
Definition ex_warp : image :=
  Image [2; 2; 1; 3]
        [0; 0; 0; 0; 1; 2; -1; 3; 0; 0; 0; 0]%float
        ex_affine ex_header.

(** * Properties *)

(** ** Paths and feeding edges *)

Section GraphLemmas.

Variable es : list edge.

Lemma path_forward (order : list string) :
  topo_ok order es = true →
  ∀ n m, path es n m → index_of n order < index_of m order.
Proof.
  intros Hok n m Hp. unfold topo_ok in Hok.
  rewrite forallb_forall in Hok.
  induction Hp as [e He | e m He _ IH].
  - apply Nat.ltb_lt. now apply Hok.
  - apply Hok, Nat.ltb_lt in He. lia.
Qed.

Lemma topo_ok_acyclic (order : list string) :
  topo_ok order es = true → acyclic es.
Proof.
  intros Hok n Hp. apply (path_forward order Hok) in Hp. lia.
Qed.

Lemma feeders_spec d p e :
  In e (feeders es d p) ↔ In e es ∧ e_dst e = d ∧ e_dst_port e = p.
Proof.
  unfold feeders, feeds. rewrite filter_In, andb_true_iff, !String.eqb_eq.
  tauto.
Qed.

Lemma unique_inputs_b_sound :
  unique_inputs_b es = true → unique_inputs es.
Proof.
  intros Hok d p. unfold unique_inputs_b in Hok.
  rewrite forallb_forall in Hok.
  destruct (feeders es d p) as [|e l] eqn:Hf; [simpl; lia|].
  assert (He : In e (feeders es d p)) by (rewrite Hf; now left).
  apply feeders_spec in He as (He & <- & <-).
  apply Hok, Nat.leb_le in He. now rewrite Hf in He.
Qed.

Lemma mem_In n l : mem n l = true ↔ In n l.
Proof.
  unfold mem. rewrite existsb_exists. split.
  - intros (x & Hx & Heq). apply String.eqb_eq in Heq. now subst.
  - intros Hin. exists n. split; [done|]. apply String.eqb_refl.
Qed.

Lemma pred_closed_sound (ns : list string) :
  pred_closed ns es = true →
  ∀ n m, path es n m → mem m ns = true → mem n ns = true.
Proof.
  intros Hok n m Hp. unfold pred_closed in Hok.
  rewrite forallb_forall in Hok.
  induction Hp as [e He | e m He _ IH]; intros Hm.
  - specialize (Hok e He). rewrite Hm in Hok. exact Hok.
  - specialize (Hok e He). rewrite (IH Hm) in Hok. exact Hok.
Qed.

(** A node outside a predecessor-closed set that contains the sources of the
    feeding edges is not upstream of the port. *)
Lemma not_upstream (ns : list string) d p n :
  pred_closed ns es = true →
  forallb (fun e => mem (e_src e) ns) (feeders es d p) = true →
  mem n ns = false →
  ¬ upstream es d p n.
Proof.
  intros Hcl Hsrc Hn (e & He & Hup).
  rewrite forallb_forall in Hsrc. specialize (Hsrc e He).
  destruct Hup as [<- | Hp]; [congruence|].
  apply (pred_closed_sound ns Hcl) in Hp; congruence.
Qed.

End GraphLemmas.

(** The builder of the PEPOLAR workflow returns a graph exactly when every
    entry of [fmaps] has an ['epi'] key. *)
Lemma epi_files_ok (fmaps : list (gmap string string)) :
  Forall (fun fmap => is_Some (fmap !! "epi")) fmaps →
  ∃ epis, epi_files fmaps = Ok epis ∧ List.length epis = List.length fmaps.
Proof.
  unfold epi_files. induction 1 as [|fmap l [v Hv] _ (epis & IH & Hlen)].
  - now exists [].
  - cbn [mapM]. rewrite IH. unfold getitem. rewrite Hv.
    exists (v :: epis). simpl. now rewrite Hlen.
Qed.

Lemma init_pepolar_edges fmaps bids_dir name wf :
  init_pepolar_unwarp_report_wf fmaps bids_dir name = Ok wf →
  wf_edges wf = pepolar_edges.
Proof.
  unfold init_pepolar_unwarp_report_wf.
  destruct (epi_files fmaps) as [epis|e]; simpl; [|discriminate].
  intros [= <-]. reflexivity.
Qed.

Lemma init_pepolar_nodes fmaps bids_dir name wf :
  init_pepolar_unwarp_report_wf fmaps bids_dir name = Ok wf →
  node_names wf =
  ["inputnode"; "explicit_mask_epi"; "merge_list"; "mag_inu"; "cphdr";
   "skullstrip"; "apply_skullstrip"; "merge"; "generate_idata"; "topup";
   "cphdr_warp"; "to_ants"; "unwarp_reference"; "apply_jacobian";
   "ref_msk_post"; "outputnode"].
Proof.
  unfold init_pepolar_unwarp_report_wf.
  destruct (epi_files fmaps) as [epis|e]; simpl; [|discriminate].
  intros [= <-]. reflexivity.
Qed.

(** ** The demean switch of the fieldmap workflow *)

(** The edges and the node names of the fieldmap graph depend on the two
    switches only. *)
Lemma init_sdc_edges reportlets_dir ants_nthreads fmap_bspline fmap_demean debug name :
  wf_edges (init_sdc_unwarp_wf reportlets_dir ants_nthreads fmap_bspline
              fmap_demean debug name) =
  wf_edges (init_sdc_unwarp_wf "" 0 fmap_bspline fmap_demean false "").
Proof. destruct fmap_bspline, fmap_demean; vm_compute; reflexivity. Qed.

Lemma init_sdc_node_names reportlets_dir ants_nthreads fmap_bspline fmap_demean debug name :
  node_names (init_sdc_unwarp_wf reportlets_dir ants_nthreads fmap_bspline
                fmap_demean debug name) =
  node_names (init_sdc_unwarp_wf "" 0 fmap_bspline fmap_demean false "").
Proof. destruct fmap_bspline, fmap_demean; vm_compute; reflexivity. Qed.

Lemma topologies_exclusive wf : direct_topology wf → demeaned_topology wf → False.
Proof. intros (_ & Hno & _) (Hyes & _). congruence. Qed.

(** C1. Conditional wiring of [init_sdc_unwarp_wf]: with [fmap_demean] false
    the shift map of [gen_vsm] feeds [vsm2dfm] directly and the graph has no
    [demean] node; with [fmap_demean] true the [demean] node lies strictly
    between them; each build has exactly one of the two topologies. *)
Theorem sdc_demean_wiring reportlets_dir ants_nthreads fmap_bspline fmap_demean
    debug name :
  let wf := init_sdc_unwarp_wf reportlets_dir ants_nthreads fmap_bspline
              fmap_demean debug name in
  (if fmap_demean
   then demeaned_topology wf ∧ ¬ direct_topology wf
   else direct_topology wf ∧ ¬ demeaned_topology wf).
Proof.
  intros wf.
  assert (Hone : if fmap_demean then demeaned_topology wf else direct_topology wf).
  { subst wf. unfold demeaned_topology, direct_topology.
    rewrite init_sdc_edges, init_sdc_node_names.
    destruct fmap_demean, fmap_bspline;
      (repeat apply conj; vm_compute; reflexivity). }
  destruct fmap_demean; (split; [exact Hone|]); intros Hother;
    eapply topologies_exclusive; eauto.
Qed.

(** ** The inputs of the concatenation in the PEPOLAR workflow *)

(** What the builder returns: the nodes that carry the list of the
    opposite-phase files, and the other nodes and the edges, which are fixed. *)
Lemma init_pepolar_inv fmaps bids_dir name wf :
  init_pepolar_unwarp_report_wf fmaps bids_dir name = Ok wf →
  ∃ epis,
    epi_files fmaps = Ok epis ∧
    wf_edges wf = pepolar_edges ∧
    find_node wf "mag_inu" =
      Some (Node "mag_inu" (N4BiasFieldCorrection 3) (Some ["input_image"])
                 [("input_image", IStrs epis)]) ∧
    find_node wf "cphdr" =
      Some (Node "cphdr" CopyHeader (Some ["hdr_file"; "in_file"])
                 [("hdr_file", IStrs epis)]) ∧
    find_node wf "apply_skullstrip" =
      Some (Node "apply_skullstrip" ApplyMask (Some ["mask_file"; "in_file"])
                 [("in_file", IStrs epis)]) ∧
    find_node wf "merge_list" = Some (Node "merge_list" (MergeLists 2) None []) ∧
    find_node wf "merge" = Some (Node "merge" (MergeImages "t") None []) ∧
    find_node wf "apply_jacobian" =
      Some (Node "apply_jacobian" (BinaryMaths "mul") None []).
Proof.
  unfold init_pepolar_unwarp_report_wf.
  destruct (epi_files fmaps) as [epis|e]; simpl; [|discriminate].
  intros [= <-]. exists epis.
  repeat apply conj; vm_compute; reflexivity.
Qed.

Lemma pepolar_builds :
  is_ok (init_pepolar_unwarp_report_wf one_fmap "/data" "pepolar_unwarp_wf") = true.
Proof. vm_compute. reflexivity. Qed.

Lemma merge_not_upstream n :
  mem n merge_sources = false →
  ¬ upstream pepolar_edges "merge" "in_files" n.
Proof.
  intros Hn. apply (not_upstream _ merge_sources); [| |exact Hn];
    vm_compute; reflexivity.
Qed.

(** C2, as stated, fails: in the graph built for one opposite-phase volume the
    second input of the concatenated list is not the output of the masking
    node, and that node is not upstream of the concatenation at all. *)
Lemma pepolar_merge_masked_counterexample :
  ∃ wf, init_pepolar_unwarp_report_wf one_fmap "/data" "pepolar_unwarp_wf" = Ok wf ∧
        ¬ merge_gets_masked wf ∧
        ¬ upstream (wf_edges wf) "merge" "in_files" "apply_skullstrip".
Proof.
  destruct (init_pepolar_unwarp_report_wf one_fmap "/data" "pepolar_unwarp_wf")
    as [wf|e] eqn:Hwf; [|vm_compute in Hwf; discriminate Hwf].
  exists wf. split; [reflexivity|].
  unfold merge_gets_masked. rewrite (init_pepolar_edges _ _ _ _ Hwf). split.
  - intros (_ & H). vm_compute in H. discriminate H.
  - apply merge_not_upstream. vm_compute. reflexivity.
Qed.

(** C2, amended. In every graph built by [init_pepolar_unwarp_report_wf] the
    concatenation node receives the list made of the reference image first and
    then the output of [cphdr]: each opposite-phase volume, in the order of
    [fmaps], after bias correction and header repair, not masked; the masking
    node feeds nothing. *)
Theorem pepolar_merge_inputs fmaps bids_dir name wf :
  init_pepolar_unwarp_report_wf fmaps bids_dir name = Ok wf →
  merge_gets_unmasked fmaps wf.
Proof.
  intros Hwf.
  destruct (init_pepolar_inv _ _ _ _ Hwf)
    as (epis & Hepis & Hes & Hinu & Hcp & _ & Hml & Hm & _).
  unfold merge_gets_unmasked. rewrite Hes.
  repeat apply conj; try (vm_compute; reflexivity); try assumption.
  - exists epis. auto.
  - apply merge_not_upstream. vm_compute. reflexivity.
  - apply merge_not_upstream. vm_compute. reflexivity.
Qed.

Lemma pepolar_merge_inputs_witness :
  ∃ wf, init_pepolar_unwarp_report_wf one_fmap "/data" "pepolar_unwarp_wf" = Ok wf ∧
        merge_gets_unmasked one_fmap wf.
Proof.
  destruct (init_pepolar_unwarp_report_wf one_fmap "/data" "pepolar_unwarp_wf")
    as [wf|e] eqn:Hwf; [|vm_compute in Hwf; discriminate Hwf].
  exists wf. split; [reflexivity|].
  exact (pepolar_merge_inputs one_fmap "/data" "pepolar_unwarp_wf" wf Hwf).
Defined.

(** ** The Jacobian correction in the PEPOLAR workflow *)

Lemma out_reference_not_upstream n :
  mem n out_reference_sources = false →
  ¬ upstream pepolar_edges "outputnode" "out_reference" n.
Proof.
  intros Hn. apply (not_upstream _ out_reference_sources); [| |exact Hn];
    vm_compute; reflexivity.
Qed.

(** C3, as stated, fails: in the graph built for one opposite-phase volume the
    image delivered at [out_reference] is not the output of the Jacobian
    multiplication, and that node is not upstream of [out_reference]. *)
Lemma pepolar_out_reference_counterexample :
  ∃ wf, init_pepolar_unwarp_report_wf one_fmap "/data" "pepolar_unwarp_wf" = Ok wf ∧
        ¬ out_reference_corrected wf ∧
        ¬ upstream (wf_edges wf) "outputnode" "out_reference" "apply_jacobian".
Proof.
  destruct (init_pepolar_unwarp_report_wf one_fmap "/data" "pepolar_unwarp_wf")
    as [wf|e] eqn:Hwf; [|vm_compute in Hwf; discriminate Hwf].
  exists wf. split; [reflexivity|].
  unfold out_reference_corrected. rewrite (init_pepolar_edges _ _ _ _ Hwf). split.
  - intros H. vm_compute in H. discriminate H.
  - apply out_reference_not_upstream. vm_compute. reflexivity.
Qed.

(** C3, amended. In every graph built by [init_pepolar_unwarp_report_wf] the
    unwarped reference is multiplied voxel-wise by the first Jacobian map
    returned by the blip-pair estimator, and the product feeds the brain-mask
    recomputation node only; [out_reference] delivers the unwarped reference
    before the multiplication. *)
Theorem pepolar_jacobian_wiring fmaps bids_dir name wf :
  init_pepolar_unwarp_report_wf fmaps bids_dir name = Ok wf →
  jacobian_applied wf ∧ out_reference_uncorrected wf.
Proof.
  intros Hwf.
  destruct (init_pepolar_inv _ _ _ _ Hwf)
    as (epis & _ & Hes & _ & _ & _ & _ & _ & Hjac).
  unfold jacobian_applied, out_reference_uncorrected. rewrite Hes.
  repeat apply conj; try (vm_compute; reflexivity); try assumption.
  apply out_reference_not_upstream. vm_compute. reflexivity.
Qed.

Lemma pepolar_jacobian_wiring_witness :
  ∃ wf, init_pepolar_unwarp_report_wf one_fmap "/data" "pepolar_unwarp_wf" = Ok wf ∧
        jacobian_applied wf ∧ out_reference_uncorrected wf.
Proof.
  destruct (init_pepolar_unwarp_report_wf one_fmap "/data" "pepolar_unwarp_wf")
    as [wf|e] eqn:Hwf; [|vm_compute in Hwf; discriminate Hwf].
  exists wf. split; [reflexivity|].
  exact (pepolar_jacobian_wiring one_fmap "/data" "pepolar_unwarp_wf" wf Hwf).
Defined.

(** ** Acyclicity and single feeding edges *)

Lemma sdc_graph_ok reportlets_dir ants_nthreads fmap_bspline fmap_demean debug name :
  let es := wf_edges (init_sdc_unwarp_wf reportlets_dir ants_nthreads
                        fmap_bspline fmap_demean debug name) in
  acyclic es ∧ unique_inputs es.
Proof.
  intros es. subst es. rewrite init_sdc_edges. split.
  - apply (topo_ok_acyclic _ sdc_order).
    destruct fmap_bspline, fmap_demean; vm_compute; reflexivity.
  - apply unique_inputs_b_sound.
    destruct fmap_bspline, fmap_demean; vm_compute; reflexivity.
Qed.

Lemma pepolar_graph_ok : acyclic pepolar_edges ∧ unique_inputs pepolar_edges.
Proof.
  split.
  - apply (topo_ok_acyclic _ pepolar_order). vm_compute. reflexivity.
  - apply unique_inputs_b_sound. vm_compute. reflexivity.
Qed.

Lemma init_pepolar_ok fmaps bids_dir name :
  Forall (fun fmap => is_Some (fmap !! "epi")) fmaps →
  ∃ wf, init_pepolar_unwarp_report_wf fmaps bids_dir name = Ok wf.
Proof.
  intros Hf. destruct (epi_files_ok fmaps Hf) as (epis & Hepis & _).
  unfold init_pepolar_unwarp_report_wf. rewrite Hepis. simpl. eauto.
Qed.

(** C4. Every graph that a builder produces is acyclic, and every input port
    of every node is fed by at most one edge: [init_sdc_unwarp_wf] for all
    values of its switches, and [init_pepolar_unwarp_report_wf] for every list
    [fmaps], for which it returns a graph when every entry names its ['epi']
    file. No port of either graph takes more than one edge, the ports that
    accept collections included. *)
Theorem built_graphs_acyclic_single_feed :
  (∀ reportlets_dir ants_nthreads fmap_bspline fmap_demean debug name,
     let es := wf_edges (init_sdc_unwarp_wf reportlets_dir ants_nthreads
                           fmap_bspline fmap_demean debug name) in
     acyclic es ∧ unique_inputs es) ∧
  (∀ fmaps bids_dir name,
     (Forall (fun fmap => is_Some (fmap !! "epi")) fmaps →
      ∃ wf, init_pepolar_unwarp_report_wf fmaps bids_dir name = Ok wf) ∧
     (∀ wf, init_pepolar_unwarp_report_wf fmaps bids_dir name = Ok wf →
            acyclic (wf_edges wf) ∧ unique_inputs (wf_edges wf))).
Proof.
  split.
  - apply sdc_graph_ok.
  - intros fmaps bids_dir name. split.
    + apply init_pepolar_ok.
    + intros wf Hwf. rewrite (init_pepolar_edges _ _ _ _ Hwf).
      apply pepolar_graph_ok.
Qed.

Lemma built_graphs_acyclic_single_feed_witness :
  (let es := wf_edges (init_sdc_unwarp_wf "/out" 8 false true false "sdc_unwarp_wf") in
   acyclic es ∧ unique_inputs es) ∧
  (∃ wf, init_pepolar_unwarp_report_wf one_fmap "/data" "pepolar_unwarp_wf" = Ok wf ∧
         acyclic (wf_edges wf) ∧ unique_inputs (wf_edges wf)).
Proof.
  destruct built_graphs_acyclic_single_feed as [Hsdc Hpe]. split.
  - apply Hsdc.
  - destruct (Hpe one_fmap "/data" "pepolar_unwarp_wf") as [Hex Hall].
    destruct Hex as [wf Hwf].
    + repeat constructor. vm_compute. eauto.
    + exists wf. split; [exact Hwf|]. apply Hall, Hwf.
Defined.

(** ** The acquisition-parameter table *)

Ltac axis_letter := simpl; rewrite ?elem_of_cons; auto 6.

Lemma pe_axes_lookup k axis :
  pe_axes !! k = Some axis ↔
  (k = "i" ∧ axis = 0) ∨ (k = "j" ∧ axis = 1) ∨ (k = "k" ∧ axis = 2).
Proof.
  unfold pe_axes. rewrite !lookup_insert_Some, lookup_empty.
  split.
  - intros [[<- <-]|[? [[<- <-]|[? [[<- <-]|[? ?]]]]]]; auto. discriminate.
  - intros [[-> ->]|[[-> ->]|[-> ->]]].
    + left; auto.
    + right. split; [discriminate|]. left; auto.
    + right. split; [discriminate|]. right. split; [discriminate|]. left; auto.
Qed.

Lemma pe_axes_None k :
  k ∉ ["i"; "j"; "k"] → pe_axes !! k = None.
Proof.
  intros Hk. destruct (pe_axes !! k) as [axis|] eqn:Hl; [|reflexivity].
  exfalso. apply Hk. apply pe_axes_lookup in Hl.
  destruct Hl as [[-> _]|[[-> _]|[-> _]]]; set_solver.
Qed.

Lemma gen_line_arr_ok layout in_file :
  valid_meta (get_metadata layout in_file) →
  ∃ row, gen_line_arr layout in_file = Ok row ∧
         pe_entry (get_metadata layout in_file) row.
Proof.
  intros ([trt Htrt] & ped & Hped & Hax).
  assert (∃ axis, pe_axes !! substring 0 1 ped = Some axis) as [axis Haxis].
  { apply list_elem_of_In in Hax. simpl in Hax.
    destruct Hax as [<-|[<-|[<-|[]]]]; eexists; vm_compute; reflexivity. }
  eexists. split.
  - unfold gen_line_arr, getitem. rewrite Htrt, Hped. simpl.
    rewrite Haxis. simpl. reflexivity.
  - exists trt, ped, axis. auto.
Qed.

Lemma gen_line_ok ds layout in_file oneline row :
  readable ds in_file oneline →
  gen_line_arr layout in_file = Ok row →
  _gen_line ds layout in_file oneline = Ok (render row).
Proof.
  intros (sh & Hsh & Hdim) Hrow.
  unfold _gen_line, nb_load_shape. rewrite Hsh. simpl.
  assert (Hvols : ∃ v, (if (List.length sh =? 3) || oneline
                         then Ok 1
                         else match sh !! 3 with
                              | Some v => Ok v
                              | None => Raise IndexError
                              end) = Ok v).
  { destruct Hdim as [-> | [Hlen | [v Hv]]].
    - rewrite orb_true_r. eauto.
    - apply Nat.eqb_eq in Hlen. rewrite Hlen. simpl. eauto.
    - rewrite Hv. destruct (_ || _); eauto. }
  destruct Hvols as [v ->]. simpl. rewrite Hrow. reflexivity.
Qed.

Lemma generate_idata_rows ds name_source fmaps bids_dir epis :
  let layout := ds_layout ds bids_dir in
  epi_files fmaps = Ok epis →
  readable ds name_source true →
  valid_meta (get_metadata layout name_source) →
  Forall (fun f => readable ds f false ∧ valid_meta (get_metadata layout f)) epis →
  ∃ rows,
    _generate_idata ds name_source fmaps bids_dir =
      Ok (os_path_abspath ds "idata.txt", written (List.map render rows)) ∧
    Forall2 (fun f row => pe_entry (get_metadata layout f) row)
            (name_source :: epis) rows.
Proof.
  intros layout Hepis Hr0 Hm0 Hall.
  destruct (gen_line_arr_ok layout name_source Hm0) as (row0 & Hrow0 & He0).
  assert (Hrest : ∃ rows,
    mapM (fun fmap => epi ← getitem fmap "epi"; _gen_line ds layout epi false) fmaps
      = Ok (List.map render rows) ∧
    Forall2 (fun f row => pe_entry (get_metadata layout f) row) epis rows).
  { clear Hr0 Hm0 Hrow0 He0. revert epis Hepis Hall. unfold epi_files.
    induction fmaps as [|fmap fmaps IH]; intros epis Hepis Hall.
    - injection Hepis as <-. exists []. split; [reflexivity|constructor].
    - cbn [mapM] in Hepis |- *.
      destruct (getitem fmap "epi") as [epi|e]; [|discriminate].
      simpl in Hepis.
      destruct (mapM (λ fmap, getitem fmap "epi") fmaps) as [epis'|e] eqn:Hm;
        [|discriminate].
      simpl in Hepis. injection Hepis as <-.
      apply Forall_cons in Hall as [[Hr Hv] Hall].
      destruct (IH epis' eq_refl Hall) as (rows & Hrows & Hf2).
      destruct (gen_line_arr_ok layout epi Hv) as (row & Hrow & He).
      exists (row :: rows). split.
      + simpl. rewrite (gen_line_ok ds layout epi false row Hr Hrow).
        simpl. rewrite Hrows. reflexivity.
      + constructor; assumption. }
  destruct Hrest as (rows & Hrows & Hf2).
  exists (row0 :: rows). split.
  - unfold _generate_idata. fold layout.
    rewrite (gen_line_ok ds layout name_source true row0 Hr0 Hrow0).
    simpl. rewrite Hrows. reflexivity.
  - constructor; assumption.
Qed.

Lemma mapM_length {A B} (f : A → result B) l bs :
  mapM f l = Ok bs → List.length bs = List.length l.
Proof.
  revert bs. induction l as [|a l IH]; intros bs; cbn [mapM].
  - intros [= <-]. reflexivity.
  - destruct (f a) as [b|e]; [|discriminate]. simpl.
    destruct (mapM f l) as [bs'|e]; [|discriminate]. simpl.
    intros [= <-]. simpl. now rewrite (IH bs' eq_refl).
Qed.

Example generate_idata_example :
  _generate_idata ex_ds "sub-01_bold.nii.gz" ex_fmaps "/data" =
  Ok ("/work/idata.txt",
      "0 -1 0 0.0476" +:+ newline +:+
      "0 -1 0 0.05" +:+ newline +:+
      "0 1 0 0.05" +:+ newline).
Proof. vm_compute. reflexivity. Qed.

Example one_row_for_three_volumes :
  ds_shape ex_ds !! "sub-01_dir-PA_epi.nii.gz" = Some [64; 64; 30; 3] ∧
  _gen_line ex_ds (ds_layout ex_ds "/data") "sub-01_dir-PA_epi.nii.gz" false =
    Ok (render ["0"; "1"; "0"; "0.05"]).
Proof. split; vm_compute; reflexivity. Qed.

Lemma ex_ds_well_formed :
  let layout := ds_layout ex_ds "/data" in
  readable ex_ds "sub-01_bold.nii.gz" true ∧
  valid_meta (get_metadata layout "sub-01_bold.nii.gz") ∧
  Forall (fun f => readable ex_ds f false ∧ valid_meta (get_metadata layout f))
         ["sub-01_dir-AP_epi.nii.gz"; "sub-01_dir-PA_epi.nii.gz"].
Proof.
  intros layout. split; [|split; [|repeat constructor]].
  - eexists. split; [vm_compute; reflexivity|]. left. reflexivity.
  - split; [eexists; vm_compute; reflexivity|].
    exists "j-". split; [vm_compute; reflexivity|]. axis_letter.
  - eexists. split; [vm_compute; reflexivity|]. right. left. reflexivity.
  - eexists; vm_compute; reflexivity.
  - exists "j-". split; [vm_compute; reflexivity|]. axis_letter.
  - eexists. split; [vm_compute; reflexivity|]. right. right.
    eexists. vm_compute. reflexivity.
  - eexists; vm_compute; reflexivity.
  - exists "j". split; [vm_compute; reflexivity|]. axis_letter.
Qed.

(** *** The rows as the metadata describe them *)

Lemma substring_0_1 c s : substring 0 1 (String c s) = String c "".
Proof. simpl. now destruct s. Qed.

Lemma endswith_dash s : endswith s "-" = true ↔ ∃ p, s = p +:+ "-".
Proof.
  induction s as [|c s IH].
  - split; [discriminate|]. intros [[|? [|? ?]] H]; discriminate.
  - cbn [endswith]. rewrite orb_true_iff, IH, String.eqb_eq. split.
    + intros [->|[p ->]]; [now exists ""|now exists (String c p)].
    + intros [[|c' p] H]; [left; exact H|right].
      injection H as -> ->. now exists p.
Qed.

Lemma endswith_dash_bool s b :
  (b = true ↔ ∃ p, s = p +:+ "-") → endswith s "-" = b.
Proof.
  intros H. rewrite <- endswith_dash in H.
  destruct b, (endswith s "-"); intuition congruence.
Qed.

Lemma describes_valid_meta meta r : describes meta r → valid_meta meta.
Proof.
  intros (c & rest & Hped & Hax & _ & Htrt). split.
  - destruct Htrt as [-> | ->]; eauto.
  - exists (String c rest). split; [exact Hped|].
    rewrite substring_0_1.
    destruct Hax as [[-> _]|[[-> _]|[-> _]]]; axis_letter.
Qed.

(** The row of the program for a volume is the line of the row that the
    metadata of the volume describe. *)
Lemma pe_entry_describes meta row r :
  pe_entry meta row → describes meta r → render row = row_text r.
Proof.
  intros (trt & ped & axis & Htrt & Hped & Hax & ->)
         (c & rest & Hped' & Hc & Hneg & Htrt').
  rewrite Hped in Hped'. injection Hped' as ->.
  rewrite (endswith_dash_bool _ _ Hneg).
  assert (Ht : py_str trt = r_readout r).
  { rewrite Htrt in Htrt'. destruct Htrt' as [[= ->]|[= ->]]; reflexivity. }
  rewrite Ht.
  rewrite substring_0_1 in Hax. apply pe_axes_lookup in Hax.
  unfold row_text.
  destruct Hc as [[-> Hr]|[[-> Hr]|[-> Hr]]];
    destruct Hax as [[Hk ->]|[[Hk ->]|[Hk ->]]]; try discriminate;
    rewrite Hr; destruct (r_negative r); reflexivity.
Qed.

Lemma written_concat l : written l = String.concat "" l.
Proof.
  induction l as [|x [|y l] IH]; [reflexivity| |].
  - simpl. clear IH. induction x as [|a x IHx]; [reflexivity|].
    change (String a x +:+ "") with (String a (x +:+ "")). now rewrite IHx.
  - change (written (x :: y :: l)) with (x +:+ written (y :: l)).
    now rewrite IH.
Qed.

Lemma epi_files_lookup (fmaps : list (gmap string string)) epis :
  Forall2 (fun fmap epi => fmap !! "epi" = Some epi) fmaps epis →
  epi_files fmaps = Ok epis.
Proof.
  unfold epi_files. induction 1 as [|fmap epi fmaps epis H _ IH]; [reflexivity|].
  assert (Hg : getitem fmap "epi" = Ok epi) by (unfold getitem; now rewrite H).
  cbn [mapM]. rewrite Hg. simpl. now rewrite IH.
Qed.

Lemma rows_text (P : string → gmap string jvalue) fs rows' rows :
  Forall2 (fun f row => pe_entry (P f) row) fs rows' →
  Forall2 (fun f r => describes (P f) r) fs rows →
  List.map render rows' = List.map row_text rows.
Proof.
  intros H. revert rows. induction H as [|f row fs rows' He _ IH];
    intros rows Hd; inversion Hd as [|? r ? rows0 Hr Hrest]; subst;
    [reflexivity|].
  simpl. f_equal; [exact (pe_entry_describes _ _ _ He Hr)|now apply IH].
Qed.

Lemma describes_axis meta r : describes meta r → r_axis r < 3.
Proof.
  intros (c & rest & _ & Hc & _). destruct Hc as [[_ ->]|[[_ ->]|[_ ->]]]; lia.
Qed.

Lemma describes_file_meta (layout : gmap string (gmap string jvalue)) f r :
  (∃ meta, layout !! f = Some meta ∧ describes meta r) →
  describes (get_metadata layout f) r.
Proof. intros (meta & Hm & Hd). unfold get_metadata. now rewrite Hm. Qed.

(** C6. For a reference and N opposite-phase volumes whose files can be read
    (those of the opposite-phase volumes with three axes at least) and whose
    metadata describe a row each, [_generate_idata] returns the path of
    [idata.txt] in the working directory and writes there the lines of these
    N + 1 rows, the row of the reference first and then the row of each
    opposite-phase volume in the order of [fmaps]. The line of a row has 1 or
    -1, by the polarity of its own volume, at the axis of its own volume, 0
    at the two other axes, and the readout time of its own volume last. *)
Theorem acquisition_table ds name_source fmaps bids_dir epis rows :
  Forall2 (fun fmap epi => fmap !! "epi" = Some epi) fmaps epis →
  is_Some (ds_shape ds !! name_source) →
  Forall (fun f => ∃ sh, ds_shape ds !! f = Some sh ∧ 3 ≤ List.length sh) epis →
  Forall2 (fun f r => ∃ meta, ds_layout ds bids_dir !! f = Some meta ∧
                              describes meta r)
          (name_source :: epis) rows →
  _generate_idata ds name_source fmaps bids_dir =
    Ok (ds_cwd ds +:+ "/idata.txt", String.concat "" (List.map row_text rows)) ∧
  List.length rows = S (List.length fmaps) ∧
  Forall (fun r => r_axis r < 3) rows.
Proof.
  intros Hepis [sh0 Hsh0] Hshapes Hrows.
  set (layout := ds_layout ds bids_dir) in *.
  assert (Hd : Forall2 (fun f r => describes (get_metadata layout f) r)
                       (name_source :: epis) rows).
  { eapply Forall2_impl; [exact Hrows|]. intros f r.
    apply describes_file_meta. }
  assert (Hlen : List.length rows = S (List.length fmaps)).
  { apply Forall2_length in Hd. apply Forall2_length in Hepis.
    simpl in Hd. lia. }
  split; [|split; [exact Hlen|]].
  - inversion Hd as [|? r0 ? rows1 Hr0 Hrest]; subst.
    destruct (generate_idata_rows ds name_source fmaps bids_dir epis)
      as (rows' & Hrun & Hf2).
    + now apply epi_files_lookup.
    + exists sh0. split; [exact Hsh0|]. left. reflexivity.
    + exact (describes_valid_meta _ _ Hr0).
    + clear Hlen Hrows Hd Hr0 Hepis. revert rows1 Hrest.
      induction Hshapes as [|f epis (sh & Hsh & Hdim) _ IH]; intros rows1 Hrest;
        [constructor|].
      inversion Hrest as [|? r ? rows2 Hr Hrest']; subst. constructor.
      * split; [|exact (describes_valid_meta _ _ Hr)].
        exists sh. split; [exact Hsh|]. right.
        destruct (decide (List.length sh = 3)) as [H3|H3]; [now left|right].
        apply lookup_lt_is_Some. lia.
      * exact (IH rows2 Hrest').
    + rewrite Hrun. do 2 f_equal. rewrite written_concat. f_equal.
      exact (rows_text (get_metadata layout) _ _ _ Hf2 Hd).
  - eapply Forall2_Forall_r; [exact Hd|].
    apply Forall_forall. intros f _ r. apply describes_axis.
Qed.

Lemma acquisition_table_witness :
  _generate_idata ex_ds "sub-01_bold.nii.gz" ex_fmaps "/data" =
    Ok ("/work" +:+ "/idata.txt",
        String.concat ""
          (List.map row_text [AcqRow 1 true "0.0476"; AcqRow 1 true "0.05";
                              AcqRow 1 false "0.05"])) ∧
  List.length [AcqRow 1 true "0.0476"; AcqRow 1 true "0.05";
               AcqRow 1 false "0.05"] = S (List.length ex_fmaps) ∧
  Forall (fun r => r_axis r < 3)
         [AcqRow 1 true "0.0476"; AcqRow 1 true "0.05"; AcqRow 1 false "0.05"].
Proof.
  apply (acquisition_table ex_ds "sub-01_bold.nii.gz" ex_fmaps "/data"
           ["sub-01_dir-AP_epi.nii.gz"; "sub-01_dir-PA_epi.nii.gz"]).
  - repeat constructor.
  - exists [64; 64; 30; 200]. vm_compute. reflexivity.
  - repeat constructor.
    + exists [64; 64; 30]. split; [vm_compute; reflexivity|simpl; lia].
    + exists [64; 64; 30; 3]. split; [vm_compute; reflexivity|simpl; lia].
  - repeat constructor.
    + exists (ex_meta "j-" "0.0476"). split; [vm_compute; reflexivity|].
      exists "j"%char, "-". split; [vm_compute; reflexivity|].
      split; [auto|]. split; [|right; vm_compute; reflexivity].
      split; [now exists "j"|reflexivity].
    + exists (ex_meta "j-" "0.05"). split; [vm_compute; reflexivity|].
      exists "j"%char, "-". split; [vm_compute; reflexivity|].
      split; [auto|]. split; [|right; vm_compute; reflexivity].
      split; [now exists "j"|reflexivity].
    + exists (ex_meta "j" "0.05"). split; [vm_compute; reflexivity|].
      exists "j"%char, "". split; [vm_compute; reflexivity|].
      split; [auto|]. split; [|right; vm_compute; reflexivity].
      split; [discriminate|]. intros [[|? [|? ?]] H]; discriminate.
Defined.

(** X23. One line for one file, whatever the length of its fourth axis: for
    a file that can be read, with any shape of three axes or more (or any
    shape at all when one line is asked for), [_gen_line] returns the one
    line of the row that the metadata of the file describe; the count of
    volumes that it reads from a shape of four axes does not reach the
    loop. *)
Theorem gen_line_single_row ds (layout : gmap string (gmap string jvalue))
    in_file oneline sh meta r :
  ds_shape ds !! in_file = Some sh →
  oneline = true ∨ 3 ≤ List.length sh →
  layout !! in_file = Some meta →
  describes meta r →
  _gen_line ds layout in_file oneline = Ok (row_text r).
Proof.
  intros Hsh Hdim Hmeta Hr.
  assert (Hd : describes (get_metadata layout in_file) r)
    by (apply describes_file_meta; eauto).
  destruct (gen_line_arr_ok layout in_file (describes_valid_meta _ _ Hd))
    as (row & Hrow & He).
  rewrite (gen_line_ok ds layout in_file oneline row); [|exists sh|exact Hrow].
  - f_equal. exact (pe_entry_describes _ _ _ He Hd).
  - split; [exact Hsh|]. destruct Hdim as [->|Hlen]; [now left|right].
    destruct (decide (List.length sh = 3)) as [H3|H3]; [now left|right].
    apply lookup_lt_is_Some. lia.
Qed.

Lemma gen_line_single_row_witness :
  _gen_line ex_ds (ds_layout ex_ds "/data") "sub-01_dir-PA_epi.nii.gz" false =
    Ok (row_text (AcqRow 1 false "0.05")).
Proof.
  apply (gen_line_single_row ex_ds (ds_layout ex_ds "/data")
           "sub-01_dir-PA_epi.nii.gz" false [64; 64; 30; 3]
           (ex_meta "j" "0.05")).
  - vm_compute. reflexivity.
  - right. simpl. lia.
  - vm_compute. reflexivity.
  - exists "j"%char, "". split; [vm_compute; reflexivity|].
    split; [auto|]. split; [|right; vm_compute; reflexivity].
    split; [discriminate|]. intros [[|? [|? ?]] H]; discriminate.
Defined.

(** ** Phase-encoding codes outside the grammar *)

Ltac no_axis_letter :=
  unfold bad_axis; simpl; rewrite !not_elem_of_cons;
  repeat split; try discriminate; apply not_elem_of_nil.

Lemma replace_other_head old new c s :
  c ≠ old → replace old new (String c s) = String c (replace old new s).
Proof.
  intros Hne. simpl. destruct (Ascii.eqb_spec c old); [contradiction|reflexivity].
Qed.

Lemma bad_axis_head c s :
  bad_axis (String c s) → c ≠ "i"%char ∧ c ≠ "j"%char ∧ c ≠ "k"%char.
Proof.
  unfold bad_axis. rewrite substring_0_1. intros Hbad.
  repeat split; intros ->; apply Hbad; set_solver.
Qed.

(** The conversion leaves the first character of such a code as it is. *)
Lemma fugue_keeps_bad_axis ped :
  bad_axis ped →
  substring 0 1 (replace "k" "z" (replace "j" "y" (replace "i" "x" ped))) =
  substring 0 1 ped.
Proof.
  destruct ped as [|c s]; [reflexivity|].
  intros Hbad. apply bad_axis_head in Hbad as (Hi & Hj & Hk).
  rewrite !replace_other_head by assumption. now rewrite !substring_0_1.
Qed.

Lemma gen_line_arr_bad_axis layout in_file ped :
  get_metadata layout in_file !! "PhaseEncodingDirection" = Some (JStr ped) →
  bad_axis ped →
  ∃ key, gen_line_arr layout in_file = Raise (KeyError key).
Proof.
  intros Hped Hbad. unfold gen_line_arr, getitem.
  destruct (get_metadata layout in_file !! "TotalReadoutTime") as [trt|]; simpl;
    [|eauto].
  rewrite Hped. simpl. rewrite (pe_axes_None _ Hbad). simpl. eauto.
Qed.

Lemma gen_line_raises ds layout in_file oneline e :
  gen_line_arr layout in_file = Raise e →
  is_ok (_gen_line ds layout in_file oneline) = false.
Proof.
  intros Harr. unfold _gen_line.
  destruct (nb_load_shape ds in_file) as [sh|e1]; simpl; [|reflexivity].
  destruct (if (List.length sh =? 3) || oneline
            then Ok 1
            else match sh !! 3 with
                 | Some v => Ok v
                 | None => Raise IndexError
                 end) as [v|e2]; simpl; [|reflexivity].
  rewrite Harr. reflexivity.
Qed.

(** C8, as stated, fails: the code [q-] starts with no axis letter, and the
    FUGUE-direction conversion returns it unchanged instead of failing. *)
Lemma pedir_fugue_counterexample :
  bad_axis "q-" ∧
  _get_pedir_fugue {[ "PhaseEncodingDirection" := JStr "q-" ]} = Ok "q-".
Proof.
  split; [|vm_compute; reflexivity]. no_axis_letter.
Qed.

(** C8, amended. For a phase-encoding code whose first character is not one
    of the three axis letters, the construction of a row of the acquisition
    table fails with a lookup error, and so does [_gen_line]; the
    FUGUE-direction conversion does not check the code: it returns the code
    with every [i], [j], [k] replaced by [x], [y], [z], which starts with the
    same character as the code, as [_get_pedir_bids] returns the code itself. *)
Theorem bad_pe_code ped :
  bad_axis ped →
  (∀ ds layout in_file oneline,
     get_metadata layout in_file !! "PhaseEncodingDirection" = Some (JStr ped) →
     (∃ key, gen_line_arr layout in_file = Raise (KeyError key)) ∧
     is_ok (_gen_line ds layout in_file oneline) = false) ∧
  (∀ in_dict,
     in_dict !! "PhaseEncodingDirection" = Some (JStr ped) →
     _get_pedir_bids in_dict = Ok (JStr ped) ∧
     ∃ out, _get_pedir_fugue in_dict = Ok out ∧
            out = replace "k" "z" (replace "j" "y" (replace "i" "x" ped)) ∧
            substring 0 1 out = substring 0 1 ped).
Proof.
  intros Hbad. split.
  - intros ds layout in_file oneline Hped.
    destruct (gen_line_arr_bad_axis layout in_file ped Hped Hbad) as [key Hk].
    split; [eauto|]. eapply gen_line_raises, Hk.
  - intros in_dict Hped. split.
    { unfold _get_pedir_bids, getitem. now rewrite Hped. }
    eexists. split; [|split; [reflexivity|]].
    + unfold _get_pedir_fugue, getitem. rewrite Hped. reflexivity.
    + now apply fugue_keeps_bad_axis.
Qed.

Lemma bad_pe_code_witness :
  (∀ ds layout in_file oneline,
     get_metadata layout in_file !! "PhaseEncodingDirection" = Some (JStr "q-") →
     (∃ key, gen_line_arr layout in_file = Raise (KeyError key)) ∧
     is_ok (_gen_line ds layout in_file oneline) = false) ∧
  (∀ in_dict,
     in_dict !! "PhaseEncodingDirection" = Some (JStr "q-") →
     _get_pedir_bids in_dict = Ok (JStr "q-") ∧
     ∃ out, _get_pedir_fugue in_dict = Ok out ∧
            out = replace "k" "z" (replace "j" "y" (replace "i" "x" "q-")) ∧
            substring 0 1 out = substring 0 1 "q-").
Proof.
  apply (bad_pe_code "q-"). no_axis_letter.
Defined.

Example gen_line_bad_axis_example :
  gen_line_arr
    {[ "f.nii" := <["PhaseEncodingDirection" := JStr "q-"]>
                    (<["TotalReadoutTime" := JNum "0.05"]> ∅) ]} "f.nii" =
  Raise (KeyError "q").
Proof. vm_compute. reflexivity. Qed.

Example pedir_fugue_recognised :
  _get_pedir_fugue {[ "PhaseEncodingDirection" := JStr "j-" ]} = Ok "y-".
Proof. vm_compute. reflexivity. Qed.

(** ** IEEE arithmetic *)
Section Rounding.
Local Open Scope Z_scope.

Lemma sub_nan_r x : (x - nan)%float = nan.
Proof.
  apply Prim2SF_inj. rewrite FloatAxioms.sub_spec.
  change (Prim2SF nan) with S754_nan.
  destruct (Prim2SF x); reflexivity.
Qed.

Lemma is_nan_spec x : is_nan x = true ↔ x = nan.
Proof.
  unfold is_nan. rewrite FloatAxioms.eqb_spec. split.
  - intros H. apply Prim2SF_inj. change (Prim2SF nan) with S754_nan.
    unfold SFeqb in H. destruct (Prim2SF x) as [s|s| |s m e]; try reflexivity.
    + discriminate.
    + destruct s; discriminate.
    + exfalso. cbn in H. destruct s; rewrite Z.compare_refl, ?Pos.compare_cont_refl in H;
        discriminate.
  - intros ->. reflexivity.
Qed.

Lemma SFcompare_antisym a b c :
  SFcompare a b = Some c → SFcompare b a = Some (CompOpp c).
Proof.
  destruct a as [s1|s1| |s1 m1 e1], b as [s2|s2| |s2 m2 e2]; cbn;
    try discriminate; intros [= <-]; try reflexivity;
    try (destruct s1; reflexivity); try (destruct s2; reflexivity);
    try (destruct s1, s2; reflexivity).
  f_equal. rewrite (Z.compare_antisym e1 e2).
  pose proof (Pos.compare_cont_antisym m1 m2 Eq) as H. cbn in H. rewrite <- H.
  destruct s1, s2, (e1 ?= e2); cbn; try reflexivity.
  all: destruct (Pos.compare_cont Eq m1 m2); reflexivity.
Qed.

Lemma SFcompare_Some a b :
  a ≠ S754_nan → b ≠ S754_nan → ∃ c, SFcompare a b = Some c.
Proof.
  destruct a, b; cbn; try congruence; eauto.
Qed.

Lemma leb_total x y :
  is_nan x = false → is_nan y = false → (x <=? y)%float = false →
  (y <=? x)%float = true.
Proof.
  intros Hx Hy. rewrite !FloatAxioms.leb_spec. unfold SFleb.
  destruct (SFcompare_Some (Prim2SF x) (Prim2SF y)) as [c Hc].
  - intros E. assert (x = nan) as -> by (apply Prim2SF_inj; exact E). discriminate.
  - intros E. assert (y = nan) as -> by (apply Prim2SF_inj; exact E). discriminate.
  - rewrite Hc, (SFcompare_antisym _ _ _ Hc). destruct c; cbn; congruence.
Qed.

(** *** Rounding a product *)

Lemma iter_pos_nat {A} (f : A → A) p x :
  SpecFloat.iter_pos f p x = Nat.iter (Pos.to_nat p) f x.
Proof.
  revert x. induction p as [p IH|p IH|]; intros x; cbn [SpecFloat.iter_pos].
  - rewrite !IH, Pos2Nat.inj_xI, <- Nat.iter_add, <- Nat.iter_succ_r.
    f_equal. lia.
  - rewrite !IH, Pos2Nat.inj_xO, <- Nat.iter_add. f_equal. lia.
  - reflexivity.
Qed.

Lemma shr_1_iter n : ∀ mrs p,
  shr_m mrs = Zpos p → Z.of_nat n < Zpos (digits2_pos p) →
  ∃ q, shr_m (Nat.iter n shr_1 mrs) = Zpos q.
Proof.
  induction n as [|n IH]; intros mrs p Hm Hn.
  - exists p. exact Hm.
  - rewrite Nat.iter_succ_r. destruct mrs as [m r s]. cbn in Hm. subst m.
    destruct p as [p|p|]; cbn [digits2_pos] in Hn.
    + apply (IH _ p); [reflexivity|lia].
    + apply (IH _ p); [reflexivity|lia].
    + lia.
Qed.

Lemma shr_pos mrs e n p :
  shr_m mrs = Zpos p → n < Zpos (digits2_pos p) →
  ∃ q, shr_m (fst (shr mrs e n)) = Zpos q ∧ snd (shr mrs e n) = Z.max e (e + n).
Proof.
  intros Hm Hn. destruct n as [|k|k]; cbn [shr fst snd].
  - exists p. split; [exact Hm|lia].
  - rewrite iter_pos_nat.
    destruct (shr_1_iter (Pos.to_nat k) mrs p Hm) as [q Hq]; [lia|].
    exists q. split; [exact Hq|lia].
  - exists p. split; [exact Hm|lia].
Qed.

Lemma round_nearest_even_pos p l : ∃ q, round_nearest_even (Zpos p) l = Zpos q.
Proof.
  destruct l as [|[| |]]; cbn [round_nearest_even]; eauto.
  destruct (Z.even (Zpos p)); eauto.
Qed.

Lemma shr_m_of_loc m l : shr_m (shr_record_of_loc m l) = m.
Proof. destruct l as [|[| |]]; reflexivity. Qed.

(** Rounding a positive integer times a power of two whose value is at
    least the least positive double gives a finite number that is not zero,
    or the infinity, of the same sign. *)
Lemma binary_round_aux_pos sx p e l :
  SpecFloat.emin prec emax < Zpos (digits2_pos p) + e →
  (∃ m' e', binary_round_aux prec emax sx (Zpos p) e l = S754_finite sx m' e' ∧
            fexp prec emax (Zpos (digits2_pos p) + e) ≤ e' ≤ emax - prec) ∨
  binary_round_aux prec emax sx (Zpos p) e l = S754_infinity sx.
Proof.
  intros He. unfold binary_round_aux, shr_fexp. cbn [Zdigits2].
  set (n1 := fexp prec emax (Zpos (digits2_pos p) + e) - e).
  destruct (shr_pos (shr_record_of_loc (Zpos p) l) e n1 p) as (q & Hq & He1).
  { apply shr_m_of_loc. }
  { unfold n1, fexp, SpecFloat.emin, prec, emax in *. lia. }
  destruct (shr (shr_record_of_loc (Zpos p) l) e n1) as [mrs1 e1].
  cbn [fst snd] in Hq, He1. rewrite Hq.
  destruct (round_nearest_even_pos q (loc_of_shr_record mrs1)) as [q' ->].
  cbn [Zdigits2].
  set (n2 := fexp prec emax (Zpos (digits2_pos q') + e1) - e1).
  destruct (shr_pos (shr_record_of_loc (Zpos q') loc_Exact) e1 n2 q')
    as (q2 & Hq2 & He2).
  { reflexivity. }
  { unfold n1, n2, fexp, SpecFloat.emin, prec, emax in *. lia. }
  destruct (shr (shr_record_of_loc (Zpos q') loc_Exact) e1 n2) as [mrs2 e2].
  cbn [fst snd] in Hq2, He2. rewrite Hq2.
  destruct (Z.leb_spec e2 (emax - prec)) as [Hle|_]; [left|right; reflexivity].
  exists q2, e2. split; [reflexivity|].
  unfold n1, n2, fexp, SpecFloat.emin, prec, emax in *. lia.
Qed.

Lemma digits2_pos_log2 p : Zpos (digits2_pos p) = Z.succ (Z.log2 (Zpos p)).
Proof.
  assert (H : ∀ q, digits2_pos q = Pos.size q).
  { induction q as [q IH|q IH|]; cbn; rewrite ?IH; reflexivity. }
  rewrite H. destruct p; cbn [Z.log2 Pos.size]; lia.
Qed.

Lemma digits2_pos_mul_r p q :
  Zpos (digits2_pos q) ≤ Zpos (digits2_pos (p * q)).
Proof.
  rewrite !digits2_pos_log2. apply Zsucc_le_compat, Z.log2_le_mono. nia.
Qed.

Lemma valid_finite_emin x s m e :
  Prim2SF x = S754_finite s m e →
  fexp prec emax (Zpos (digits2_pos m) + e) = e ∧ e ≤ emax - prec.
Proof.
  intros H. pose proof (Prim2SF_valid x) as Hv. rewrite H in Hv.
  cbn [SpecFloat.valid_binary] in Hv. unfold bounded, canonical_mantissa in Hv.
  apply andb_prop in Hv as [H1 H2].
  apply Z.eqb_eq in H1. apply Z.leb_le in H2. split; [exact H1|exact H2].
Qed.

Lemma mul_signed v c mc ec s :
  Prim2SF c = S754_finite false mc ec →
  53 ≤ Zpos (digits2_pos mc) → -53 < ec →
  signed s (Prim2SF v) → signed s (Prim2SF (v * c)%float).
Proof.
  intros Hc Hd Hec Hv. rewrite FloatAxioms.mul_spec, Hc. unfold SF64mul.
  destruct Hv as [(m & e & Hv)| ->].
  - destruct (valid_finite_emin _ _ _ _ Hv) as [He _]. rewrite Hv.
    cbn [SFmul]. rewrite xorb_false_r.
    pose proof (digits2_pos_mul_r m mc) as Hm.
    destruct (binary_round_aux_pos s (m * mc) (e + ec) loc_Exact)
      as [(m' & e' & -> & _)| ->].
    + unfold fexp, SpecFloat.emin, prec, emax in *. lia.
    + left. eauto.
    + right. reflexivity.
  - cbn [SFmul]. rewrite xorb_false_r. right. reflexivity.
Qed.

(** *** Doubling is exact, and [(v * 2) * pi = v * (2 * pi)] *)

Lemma shr_1_iter_xO k : ∀ p,
  Nat.iter k shr_1 (Build_shr_record (Zpos (Nat.iter k xO p)) false false) =
  Build_shr_record (Zpos p) false false.
Proof.
  induction k as [|k IH]; intros p; [reflexivity|].
  rewrite Nat.iter_succ_r.
  change (Nat.iter (S k) xO p) with (xO (Nat.iter k xO p)).
  cbn [shr_1 orb]. apply IH.
Qed.

Lemma digits2_pos_iter_xO k p :
  Zpos (digits2_pos (Nat.iter k xO p)) = Zpos (digits2_pos p) + Z.of_nat k.
Proof.
  induction k as [|k IH]; [cbn; lia|].
  change (Nat.iter (S k) xO p) with (xO (Nat.iter k xO p)).
  cbn [digits2_pos]. lia.
Qed.

Lemma binary_round_aux_xO sx p e :
  e + 1 ≤ fexp prec emax (Zpos (digits2_pos p) + (e + 1)) →
  binary_round_aux prec emax sx (Zpos p~0) e loc_Exact =
  binary_round_aux prec emax sx (Zpos p) (e + 1) loc_Exact.
Proof.
  intros He. unfold binary_round_aux.
  assert (H : shr_fexp prec emax (Zpos p~0) e loc_Exact =
              shr_fexp prec emax (Zpos p) (e + 1) loc_Exact).
  { unfold shr_fexp. cbn [Zdigits2 digits2_pos shr_record_of_loc].
    replace (Zpos (Pos.succ (digits2_pos p)) + e)
      with (Zpos (digits2_pos p) + (e + 1)) by lia.
    set (F := fexp prec emax (Zpos (digits2_pos p) + (e + 1))) in *.
    destruct (F - (e + 1)) as [|k'|k'] eqn:Hn'; [| |lia].
    - replace (F - e) with 1 by lia. cbn [shr SpecFloat.iter_pos shr_1 orb].
      reflexivity.
    - replace (F - e) with (Zpos (Pos.succ k')) by lia. cbn [shr].
      rewrite !iter_pos_nat, Pos2Nat.inj_succ, Nat.iter_succ_r.
      cbn [shr_1 orb]. f_equal. lia. }
  rewrite H. reflexivity.
Qed.

Lemma mul_two_finite s m e :
  fexp prec emax (Zpos (digits2_pos m) + e) = e →
  SF64mul (S754_finite s m e) (Prim2SF 2) =
  if Zpos (digits2_pos m) =? 53
  then if e + 1 <=? emax - prec then S754_finite s m (e + 1) else S754_infinity s
  else S754_finite s m~0 e.
Proof.
  intros He. change (Prim2SF 2) with (S754_finite false 4503599627370496 (-51)).
  unfold SF64mul. cbn [SFmul]. rewrite xorb_false_r.
  replace (m * 4503599627370496)%positive with (Nat.iter 52 xO m)
    by (rewrite Pos.mul_comm; reflexivity).
  unfold binary_round_aux, shr_fexp. cbn [Zdigits2].
  rewrite digits2_pos_iter_xO. cbn [shr_record_of_loc].
  destruct (Z.eqb_spec (Zpos (digits2_pos m)) 53) as [Hd|Hd].
  - replace (fexp prec emax (Zpos (digits2_pos m) + Z.of_nat 52 + (e + -51)) -
             (e + -51)) with 52
      by (unfold fexp, SpecFloat.emin, prec, emax in *; lia).
    cbn [shr]. rewrite iter_pos_nat.
    change (Pos.to_nat 52) with 52%nat. rewrite shr_1_iter_xO.
    cbn [shr_m loc_of_shr_record round_nearest_even Zdigits2 shr_record_of_loc].
    replace (fexp prec emax (Zpos (digits2_pos m) + (e + -51 + 52)) -
             (e + -51 + 52)) with 0
      by (unfold fexp, SpecFloat.emin, prec, emax in *; lia).
    cbn [shr shr_m]. replace (e + -51 + 52) with (e + 1) by lia. reflexivity.
  - assert (He' : e = -1074 ∧ Zpos (digits2_pos m) < 53)
      by (unfold fexp, SpecFloat.emin, prec, emax in *; lia).
    destruct He' as [-> Hlt].
    replace (fexp prec emax (Zpos (digits2_pos m) + Z.of_nat 52 + (-1074 + -51)) -
             (-1074 + -51)) with 51
      by (unfold fexp, SpecFloat.emin, prec, emax in *; lia).
    cbn [shr]. rewrite iter_pos_nat.
    change (Pos.to_nat 51) with 51%nat.
    change (Nat.iter 52 xO m) with (Nat.iter 51 xO (xO m)).
    rewrite shr_1_iter_xO.
    cbn [shr_m loc_of_shr_record round_nearest_even Zdigits2 shr_record_of_loc
         digits2_pos].
    replace (fexp prec emax (Zpos (Pos.succ (digits2_pos m)) + (-1074 + -51 + 51)) -
             (-1074 + -51 + 51)) with 0
      by (unfold fexp, SpecFloat.emin, prec, emax in *; lia).
    cbn [shr shr_m]. reflexivity.
Qed.

(** [nii.get_data() * 2.0 * pi] multiplies twice; the first product is exact
    or overflows, so the result is the input times the double nearest to
    2 pi, in every case. *)
Lemma mul_two_pi v : (v * 2 * pi)%float = (v * two_pi)%float.
Proof.
  apply Prim2SF_inj. rewrite !FloatAxioms.mul_spec.
  change (Prim2SF pi) with (S754_finite false 7074237752028440 (-51)).
  change (Prim2SF two_pi) with (S754_finite false 7074237752028440 (-50)).
  destruct (Prim2SF v) as [s|s| |s m e] eqn:Hv.
  - destruct s; reflexivity.
  - destruct s; reflexivity.
  - reflexivity.
  - destruct (valid_finite_emin _ _ _ _ Hv) as [He Hb].
    rewrite (mul_two_finite s m e He).
    destruct (Z.eqb_spec (Zpos (digits2_pos m)) 53) as [Hd|Hd].
    + destruct (Z.leb_spec (e + 1) (emax - prec)) as [Hle|Hgt].
      * unfold SF64mul. cbn [SFmul].
        replace (e + 1 + -51) with (e + -50) by lia. reflexivity.
      * unfold SF64mul. cbn [SFmul]. rewrite xorb_false_r.
        destruct (binary_round_aux_pos s (m * 7074237752028440) (e + -50)
                    loc_Exact) as [(m' & e' & _ & Hlo & Hhi)| ->];
          [| |reflexivity].
        -- pose proof (digits2_pos_mul_r m 7074237752028440) as Hm.
           change (Zpos (digits2_pos 7074237752028440)) with 53 in Hm.
           unfold fexp, SpecFloat.emin, prec, emax in *. lia.
        -- exfalso.
           assert (Hdd : 105 ≤ Zpos (digits2_pos (m * 7074237752028440))).
           { rewrite digits2_pos_log2, Pos2Z.inj_mul.
             pose proof (Z.log2_mul_below (Zpos m) 7074237752028440
                           ltac:(lia) ltac:(lia)) as Hl.
             rewrite digits2_pos_log2 in Hd.
             change (Z.log2 7074237752028440) with 52 in Hl. lia. }
           unfold fexp, SpecFloat.emin, prec, emax in *. lia.
    + assert (He' : e = -1074)
        by (unfold fexp, SpecFloat.emin, prec, emax in *; lia).
      subst e. unfold SF64mul. cbn [SFmul]. rewrite xorb_false_r.
      change (m~0 * 7074237752028440)%positive
        with ((m * 7074237752028440)~0)%positive.
      rewrite binary_round_aux_xO; [reflexivity|].
      unfold fexp, SpecFloat.emin, prec, emax. lia.
Qed.

End Rounding.

(** *** The class of a product with [2 pi] *)

Lemma hz2rads_voxel_sign v :
  gt0 (v * 2 * pi)%float = gt0 v ∧
  is_nan (v * 2 * pi)%float = is_nan v ∧
  ((v * 2 * pi) =? 0)%float = (v =? 0)%float.
Proof.
  rewrite mul_two_pi. unfold gt0, is_nan.
  rewrite !FloatAxioms.ltb_spec, !FloatAxioms.eqb_spec.
  change (Prim2SF 0) with (S754_zero false).
  destruct (Prim2SF v) as [s|s| |s m e] eqn:Hv.
  - rewrite FloatAxioms.mul_spec, Hv.
    change (Prim2SF two_pi) with (S754_finite false 7074237752028440 (-50)).
    destruct s; repeat split; reflexivity.
  - rewrite FloatAxioms.mul_spec, Hv.
    change (Prim2SF two_pi) with (S754_finite false 7074237752028440 (-50)).
    destruct s; repeat split; reflexivity.
  - rewrite FloatAxioms.mul_spec, Hv. repeat split; reflexivity.
  - assert (Hs : signed s (Prim2SF (v * two_pi)%float)).
    { apply (mul_signed v two_pi 7074237752028440 (-50)%Z s).
      - reflexivity.
      - vm_compute. discriminate.
      - lia.
      - rewrite Hv. left. eauto. }
    destruct Hs as [(m' & e' & ->)| ->].
    + unfold SFltb, SFeqb. cbn [SFcompare].
      rewrite !Z.compare_refl, !Pos.compare_cont_refl.
      destruct s; repeat split; reflexivity.
    + unfold SFltb, SFeqb. cbn [SFcompare].
      rewrite !Z.compare_refl, !Pos.compare_cont_refl.
      destruct s; repeat split; reflexivity.
Qed.

(** ** The image helpers *)

Lemma lookup_map {A B} (f : A → B) (l : list A) (i : nat) :
  List.map f l !! i = f <$> (l !! i).
Proof.
  revert i. induction l as [|a l IH]; intros [|i]; simpl; auto.
Qed.

Lemma block_select_nil k msk : block_select k [] msk = [].
Proof.
  induction msk as [|m msk IH]; simpl; [reflexivity|].
  rewrite take_nil, drop_nil, IH. now destruct (gt0 m).
Qed.

(** For an index of the shape of the array a block is one voxel. *)
Lemma block_select_1 data msk : block_select 1 data msk = select data msk.
Proof.
  unfold select. revert data.
  induction msk as [|m msk IH]; intros [|d data]; simpl; auto.
  - rewrite block_select_nil. now destruct (gt0 m).
  - rewrite drop_0, IH. now destruct (gt0 m).
Qed.

Lemma boolean_index_same_shape nii msk :
  shape nii = shape msk →
  boolean_index nii msk = Ok (select (dataobj nii) (dataobj msk)).
Proof.
  intros Hs. unfold boolean_index. rewrite <- Hs, firstn_all.
  rewrite decide_True by reflexivity. rewrite drop_all.
  now rewrite block_select_1.
Qed.

(** *** The selection by places *)

Lemma voxels_where_app P l1 l2 :
  voxels_where P (l1 ++ l2) =
  voxels_where P l1 ++ voxels_where (fun i => P (List.length l1 + i)) l2.
Proof. unfold voxels_where. now rewrite imap_app, omap_app. Qed.

Lemma voxels_where_ext P Q l :
  (∀ i, i < List.length l → P i = Q i) → voxels_where P l = voxels_where Q l.
Proof.
  intros H. unfold voxels_where. f_equal. apply imap_ext.
  intros i x Hx. rewrite (H i); [reflexivity|].
  now apply lookup_lt_Some in Hx.
Qed.

Lemma voxels_where_const b l :
  voxels_where (fun _ => b) l = if b then l else [].
Proof.
  unfold voxels_where. destruct b.
  - induction l as [|x l IH]; [reflexivity|]. rewrite imap_cons. simpl.
    f_equal. exact IH.
  - induction l as [|x l IH]; [reflexivity|]. rewrite imap_cons. simpl.
    exact IH.
Qed.

(** The selection of the program is the selection by places: the voxel at
    place [i] is kept when the element of the index for its block is
    positive. *)
Lemma block_select_voxels_where k msk : ∀ data,
  0 < k →
  block_select k data msk = voxels_where (fun i => positive_at msk (i / k)) data.
Proof.
  induction msk as [|m msk IH]; intros data Hk.
  - simpl. rewrite (voxels_where_ext _ (fun _ => false)); [|reflexivity].
    now rewrite voxels_where_const.
  - simpl. rewrite <- (take_drop k data) at 3. rewrite voxels_where_app.
    f_equal.
    + rewrite (voxels_where_ext _ (fun _ => gt0 m)).
      * now rewrite voxels_where_const.
      * intros i Hi. rewrite length_take in Hi.
        rewrite Nat.div_small by lia. reflexivity.
    + destruct (decide (k ≤ List.length data)) as [Hle|Hgt].
      * rewrite IH by exact Hk. apply voxels_where_ext. intros i _.
        rewrite length_take, Nat.min_l by exact Hle.
        replace (k + i) with (i + 1 * k) by lia.
        rewrite Nat.div_add by lia.
        replace (i / k + 1) with (S (i / k)) by lia. reflexivity.
      * rewrite drop_ge by lia. rewrite block_select_nil. reflexivity.
Qed.


Lemma size_of_app a b : size_of (a ++ b) = size_of a * size_of b.
Proof.
  unfold size_of. induction a as [|x a IH]; simpl; [lia|]. rewrite IH. lia.
Qed.

(** The selection with the index of leading axes, for an array with as many
    voxels as its shape says. *)
Lemma boolean_index_voxels_where nii msk :
  well_shaped nii →
  shape msk = take (List.length (shape msk)) (shape nii) →
  boolean_index nii msk =
  Ok (voxels_where
        (fun i => positive_at (dataobj msk)
                    (i / size_of (drop (List.length (shape msk)) (shape nii))))
        (dataobj nii)).
Proof.
  intros Hws Hs. unfold boolean_index. rewrite decide_True by exact Hs.
  f_equal.
  set (k := size_of (drop (List.length (shape msk)) (shape nii))) in *.
  destruct (decide (k = 0)) as [Hk|Hk].
  - assert (Hnil : dataobj nii = []).
    { apply length_zero_iff_nil. rewrite Hws.
      rewrite <- (take_drop (List.length (shape msk)) (shape nii)), size_of_app.
      fold k. lia. }
    rewrite Hnil, block_select_nil. reflexivity.
  - apply block_select_voxels_where. lia.
Qed.

(** *** The median *)

Lemma insert_sorted_perm x l : insert_sorted x l ≡ₚ x :: l.
Proof.
  induction l as [|y l IH]; simpl; [reflexivity|].
  destruct (x <=? y)%float; [reflexivity|].
  rewrite IH. apply Permutation_swap.
Qed.

Lemma sort_perm l : sort l ≡ₚ l.
Proof.
  induction l as [|x l IH]; simpl; [reflexivity|].
  now rewrite insert_sorted_perm, IH.
Qed.

Lemma insert_sorted_HdRel a x l :
  HdRel fle a l → fle a x → HdRel fle a (insert_sorted x l).
Proof.
  intros Hl Hx. destruct l as [|y l]; simpl; [now constructor|].
  destruct (x <=? y)%float; constructor; [exact Hx|].
  now inversion Hl.
Qed.

Lemma insert_sorted_Sorted x l :
  is_nan x = false → Forall (fun v => is_nan v = false) l →
  Sorted fle l → Sorted fle (insert_sorted x l).
Proof.
  intros Hx Hl Hs. induction Hs as [|y l Hs IH Hhd]; simpl.
  - repeat constructor.
  - apply Forall_cons in Hl as [Hy Hl].
    destruct (x <=? y)%float eqn:Hxy.
    + constructor; [now constructor|]. constructor. exact Hxy.
    + constructor; [now apply IH|].
      apply insert_sorted_HdRel; [exact Hhd|].
      now apply leb_total.
Qed.

Lemma sort_Sorted l :
  Forall (fun v => is_nan v = false) l → Sorted fle (sort l).
Proof.
  induction 1 as [|x l Hx Hl IH]; simpl; [constructor|].
  apply insert_sorted_Sorted; [exact Hx| |exact IH].
  now rewrite sort_perm.
Qed.

Lemma Sorted_nondecreasing s : Sorted fle s → nondecreasing s.
Proof.
  induction 1 as [|x s Hs IH Hhd]; intros i a b Ha Hb; [discriminate|].
  destruct i as [|i]; simpl in Ha, Hb.
  - injection Ha as <-. destruct s as [|y s]; [discriminate|].
    injection Hb as <-. now inversion Hhd.
  - exact (IH i a b Ha Hb).
Qed.

Lemma existsb_is_nan l :
  if existsb is_nan l
  then Exists (fun v => is_nan v = true) l
  else Forall (fun v => is_nan v = false) l.
Proof.
  induction l as [|x l IH]; simpl; [constructor|].
  destruct (is_nan x) eqn:Hx; simpl.
  - now constructor.
  - destruct (existsb is_nan l); [now apply Exists_cons_tl|now constructor].
Qed.

(** [np_median] computes the median. *)
Lemma np_median_is_median l : is_median l (np_median l).
Proof.
  unfold is_median, np_median. pose proof (existsb_is_nan l) as H.
  destruct (existsb is_nan l); [left; auto|right].
  split; [exact H|]. exists (sort l).
  split; [apply sort_perm|]. split; [now apply Sorted_nondecreasing, sort_Sorted|].
  unfold median_sorted. cbn zeta.
  assert (Hhalf : List.length (sort l) ≠ 0 →
                  List.length (sort l) / 2 < List.length (sort l))
    by (intros; apply Nat.div_lt; lia).
  destruct (List.length (sort l) =? 0) eqn:Hn.
  - apply Nat.eqb_eq in Hn. rewrite Hn. simpl.
    apply length_zero_iff_nil in Hn. now rewrite Hn.
  - apply Nat.eqb_neq in Hn. specialize (Hhalf Hn).
    destruct (sort l !! (List.length (sort l) / 2)) as [b|] eqn:Hb;
      [|apply lookup_ge_None in Hb; lia].
    destruct (Nat.odd (List.length (sort l))); [reflexivity|].
    destruct (sort l !! (List.length (sort l) / 2 - 1)) as [a|] eqn:Ha;
      [eauto|apply lookup_ge_None in Ha; lia].
Qed.

Section HelperProperties.

Variable genfname : string → string → string.

(** C9. [_hz2rads] writes an image whose every voxel is the voxel of the
    input multiplied by 2 pi, for all values of the voxels, zero and negative
    ones included: the product of the voxel, a double, with the double
    nearest to 2 pi, rounded once (the two products [v * 2.0 * pi] of the
    code give that double); the shape, the affine and the header are those of
    the input. *)
Theorem hz2rads_spec in_file out_file (fs : gmap string image) nii :
  fs !! in_file = Some nii →
  let path := match out_file with
              | Some f => f
              | None => genfname in_file "rads"
              end in
  ∃ out,
    _hz2rads genfname in_file out_file fs = Ok (path, <[path := out]> fs) ∧
    List.length (dataobj out) = List.length (dataobj nii) ∧
    (∀ i v, dataobj nii !! i = Some v →
            dataobj out !! i = Some (v * 0x1.921fb54442d18p+2)%float) ∧
    shape out = shape nii ∧ affine out = affine nii ∧ header out = header nii.
Proof.
  intros Hin path. eexists. split.
  - unfold _hz2rads, nb_load. rewrite Hin.
    destruct out_file; reflexivity.
  - simpl. split; [apply length_map|]. split; [|auto].
    intros i v Hv. rewrite lookup_map, Hv. simpl. f_equal. apply mul_two_pi.
Qed.


(** C7, amended. For a field and a mask of equal shape with no voxel where
    the mask is positive, [_demean] does not fail: the median of the empty
    selection is not-a-number, and the image written has the shape, the affine
    and the header of the field and not-a-number in every voxel. *)
Theorem demean_empty_mask in_file in_mask out_file (fs : gmap string image) nii msk :
  fs !! in_file = Some nii →
  fs !! in_mask = Some msk →
  shape nii = shape msk →
  select (dataobj nii) (dataobj msk) = [] →
  _demean genfname in_file in_mask out_file fs =
    Ok (default_name genfname in_file "demeaned" out_file,
        <[default_name genfname in_file "demeaned" out_file :=
            Image (shape nii) (List.map (fun _ => nan) (dataobj nii))
                  (affine nii) (header nii)]> fs).
Proof.
  intros Hin Hmask Hshape Hsel.
  unfold _demean, nb_load. rewrite Hin, Hmask. simpl.
  rewrite (boolean_index_same_shape nii msk Hshape). simpl. rewrite Hsel.
  do 4 f_equal. apply map_ext. intros v. apply sub_nan_r.
Qed.

End HelperProperties.

(** *** The helpers on a small store of images *)

Example demean_example :
  written_image (_demean ex_genfname "vsm.nii" "mask.nii" None ex_fs) =
  Some ("vsm.nii_demeaned",
        Image [2; 2; 1] [0; -4; -3; 2]%float ex_affine ex_header).
Proof. vm_compute. reflexivity. Qed.

Example hz2rads_example :
  written_image (_hz2rads ex_genfname "vsm.nii" (Some "rads.nii") ex_fs) =
  Some ("rads.nii",
        Image [2; 2; 1]
              [0x1.2d97c7f3321d2p+4; -0x1.921fb54442d18p+2; 0;
               0x1.f6a7a2955385ep+4]%float
              ex_affine ex_header).
Proof. vm_compute. reflexivity. Qed.

Example demean_shape_mismatch :
  _demean ex_genfname "vsm.nii" "mask.nii" None
    (<["mask.nii" := Image [4] (dataobj ex_mask) ex_affine ∅]> ex_fs) =
  Raise IndexError.
Proof. vm_compute. reflexivity. Qed.

(** A mask on the grid of the first three axes of a warp selects the three
    components of the voxels where it is positive. *)
Example demean_leading_axes :
  boolean_index ex_warp ex_mask = Ok [0; 0; 0; 0; 1; 2; 0; 0; 0]%float.
Proof. vm_compute. reflexivity. Qed.

Lemma hz2rads_spec_witness :
  ∃ out,
    _hz2rads ex_genfname "vsm.nii" None ex_fs =
      Ok (ex_genfname "vsm.nii" "rads",
          <[ex_genfname "vsm.nii" "rads" := out]> ex_fs) ∧
    List.length (dataobj out) = List.length (dataobj ex_field) ∧
    (∀ i v, dataobj ex_field !! i = Some v →
            dataobj out !! i = Some (v * 0x1.921fb54442d18p+2)%float) ∧
    shape out = shape ex_field ∧ affine out = affine ex_field ∧
    header out = header ex_field.
Proof.
  apply (hz2rads_spec ex_genfname "vsm.nii" None ex_fs ex_field).
  vm_compute. reflexivity.
Defined.



(** C7, as stated, fails: for a mask of the shape of the field with no
    positive voxel, [_demean] returns and writes an image. *)
Lemma demean_empty_mask_counterexample :
  shape ex_field = shape ex_empty_mask ∧
  select (dataobj ex_field) (dataobj ex_empty_mask) = [] ∧
  is_ok (_demean ex_genfname "vsm.nii" "empty.nii" None ex_fs) = true ∧
  written_image (_demean ex_genfname "vsm.nii" "empty.nii" None ex_fs) =
    Some ("vsm.nii_demeaned",
          Image [2; 2; 1] [nan; nan; nan; nan] ex_affine ex_header).
Proof. repeat split; vm_compute; reflexivity. Qed.

Lemma demean_empty_mask_witness :
  _demean ex_genfname "vsm.nii" "empty.nii" None ex_fs =
    Ok (default_name ex_genfname "vsm.nii" "demeaned" None,
        <[default_name ex_genfname "vsm.nii" "demeaned" None :=
            Image (shape ex_field) (List.map (fun _ => nan) (dataobj ex_field))
                  (affine ex_field) (header ex_field)]> ex_fs).
Proof.
  apply (demean_empty_mask ex_genfname "vsm.nii" "empty.nii" None ex_fs
           ex_field ex_empty_mask).
  - vm_compute. reflexivity.
  - vm_compute. reflexivity.
  - reflexivity.
  - vm_compute. reflexivity.
Defined.

(** * Further properties of the workflows *)

Lemma filter_none {A} (f : A → bool) (l : list A) :
  (∀ x, In x l → f x = false) → List.filter f l = [].
Proof.
  induction l as [|a l IH]; intros H; [reflexivity|]. simpl.
  rewrite (H a) by now left. apply IH. intros x Hx. apply H. now right.
Qed.

Lemma boundary_complete_b_sound wf :
  boundary_complete_b wf = true → boundary_complete wf.
Proof.
  unfold boundary_complete_b, boundary_complete.
  rewrite !andb_true_iff, !forallb_forall.
  intros (((((Hout & Hin) & Hsrc) & Hdst) & Hnoin) & Hnoout).
  repeat apply conj.
  - intros f Hf. apply Nat.eqb_eq. now apply Hout.
  - intros f Hf Hnil. specialize (Hin f Hf). now rewrite Hnil in Hin.
  - intros e He Hs. specialize (Hsrc e He). rewrite Hs in Hsrc.
    apply mem_In. exact Hsrc.
  - intros e He Hd. specialize (Hdst e He). rewrite Hd in Hdst.
    apply mem_In. exact Hdst.
  - intros p. apply filter_none. intros e He. unfold feeds.
    specialize (Hnoin e He). apply negb_true_iff in Hnoin. now rewrite Hnoin.
  - apply filter_none. intros e He.
    specialize (Hnoout e He). now apply negb_true_iff in Hnoout.
Qed.

Lemma nodup_b_sound l : nodup_b l = true → NoDup l.
Proof.
  induction l as [|x l IH]; simpl; [constructor|].
  rewrite andb_true_iff, negb_true_iff. intros [Hx Hl].
  apply NoDup_cons_2; [|now apply IH].
  rewrite list_elem_of_In, <- mem_In. congruence.
Qed.

Lemma well_formed_graph_b_sound wf :
  well_formed_graph_b wf = true → well_formed_graph wf.
Proof.
  unfold well_formed_graph_b, well_formed_graph.
  rewrite andb_true_iff, forallb_forall. intros [Hnd Hes].
  split; [now apply nodup_b_sound|].
  intros e He. specialize (Hes e He). apply andb_true_iff in Hes.
  now rewrite <- !mem_In.
Qed.

(** ** The boundaries of the two graphs *)

Ltac pepolar_built Hwf epis :=
  revert Hwf; unfold init_pepolar_unwarp_report_wf;
  destruct (epi_files _) as [epis|?]; simpl; [|discriminate];
  intros [= <-].

(** X1. Every graph of [init_sdc_unwarp_wf] names its nodes distinctly, joins
    nodes of the graph only, feeds each of the five declared outputs by one
    edge, reads each of the six declared inputs, and uses no undeclared field
    of the boundary nodes. *)
Theorem sdc_graph_boundary reportlets_dir ants_nthreads fmap_bspline fmap_demean
    debug name :
  let wf := init_sdc_unwarp_wf reportlets_dir ants_nthreads fmap_bspline
              fmap_demean debug name in
  well_formed_graph wf ∧ boundary_complete wf ∧
  declared_fields wf "inputnode" =
    ["in_reference"; "in_mask"; "name_source"; "fmap_ref"; "fmap_mask"; "fmap"] ∧
  declared_fields wf "outputnode" =
    ["out_reference"; "out_warp"; "out_mask"; "out_jacobian"; "out_mask_report"].
Proof.
  intros wf. subst wf. split; [|split; [|split]].
  - apply well_formed_graph_b_sound.
    destruct fmap_bspline, fmap_demean; vm_compute; reflexivity.
  - apply boundary_complete_b_sound.
    destruct fmap_bspline, fmap_demean; vm_compute; reflexivity.
  - destruct fmap_bspline, fmap_demean; vm_compute; reflexivity.
  - destruct fmap_bspline, fmap_demean; vm_compute; reflexivity.
Qed.

(** X2. Every graph of [init_pepolar_unwarp_report_wf] names its nodes
    distinctly, joins nodes of the graph only, feeds each of the five declared
    outputs by one edge, reads each of the three declared inputs, and uses no
    undeclared field of the boundary nodes. *)
Theorem pepolar_graph_boundary fmaps bids_dir name wf :
  init_pepolar_unwarp_report_wf fmaps bids_dir name = Ok wf →
  well_formed_graph wf ∧ boundary_complete wf ∧
  declared_fields wf "inputnode" = ["in_reference"; "in_mask"; "name_source"] ∧
  declared_fields wf "outputnode" =
    ["out_reference"; "out_warp"; "out_mask"; "out_jacobian"; "out_mask_report"].
Proof.
  intros Hwf. pepolar_built Hwf epis. split; [|split; [|split]].
  - apply well_formed_graph_b_sound. vm_compute. reflexivity.
  - apply boundary_complete_b_sound. vm_compute. reflexivity.
  - vm_compute. reflexivity.
  - vm_compute. reflexivity.
Qed.

Lemma pepolar_graph_boundary_witness :
  ∃ wf, init_pepolar_unwarp_report_wf one_fmap "/data" "pepolar_unwarp_wf" = Ok wf ∧
    well_formed_graph wf ∧ boundary_complete wf ∧
    declared_fields wf "inputnode" = ["in_reference"; "in_mask"; "name_source"] ∧
    declared_fields wf "outputnode" =
      ["out_reference"; "out_warp"; "out_mask"; "out_jacobian"; "out_mask_report"].
Proof.
  destruct (init_pepolar_unwarp_report_wf one_fmap "/data" "pepolar_unwarp_wf")
    as [wf|e] eqn:Hwf; [|vm_compute in Hwf; discriminate Hwf].
  exists wf. split; [reflexivity|].
  exact (pepolar_graph_boundary one_fmap "/data" "pepolar_unwarp_wf" wf Hwf).
Defined.

(** ** The fieldmap mask in the fieldmap workflow *)

(** X3. In [init_sdc_unwarp_wf] the resampled fieldmap mask reaches [gen_vsm]
    exactly when [fmap_bspline] is false and [demean] exactly when
    [fmap_demean] is true; with [fmap_bspline] true and [fmap_demean] false
    the mask is resampled and read by no node. *)
Theorem sdc_mask_usage reportlets_dir ants_nthreads fmap_bspline fmap_demean
    debug name :
  let es := wf_edges (init_sdc_unwarp_wf reportlets_dir ants_nthreads
                        fmap_bspline fmap_demean debug name) in
  feeders es "gen_vsm" "mask_file" =
    (if fmap_bspline then []
     else [Edge "fmap_mask2ref_apply" "output_image" None "gen_vsm" "mask_file"]) ∧
  feeders es "demean" "in_mask" =
    (if fmap_demean
     then [Edge "fmap_mask2ref_apply" "output_image" None "demean" "in_mask"]
     else []) ∧
  out_edges es "fmap_mask2ref_apply" =
    feeders es "gen_vsm" "mask_file" ++ feeders es "demean" "in_mask" ∧
  feeders es "fmap_mask2ref_apply" "input_image" =
    [Edge "inputnode" "fmap_mask" None "fmap_mask2ref_apply" "input_image"].
Proof.
  intros es. subst es. rewrite init_sdc_edges.
  destruct fmap_bspline, fmap_demean; repeat apply conj; vm_compute; reflexivity.
Qed.

(** ** What the fieldmap workflow delivers *)

(** X4. In [init_sdc_unwarp_wf] the reference delivered at [out_reference] is
    the unwarped reference masked by the warped field of view, the mask at
    [out_mask] is recomputed on that same image, and the Jacobian map of
    [jac_dfm] goes to [out_jacobian] only: it is applied to neither. *)
Theorem sdc_reference_delivery reportlets_dir ants_nthreads fmap_bspline
    fmap_demean debug name :
  let es := wf_edges (init_sdc_unwarp_wf reportlets_dir ants_nthreads
                        fmap_bspline fmap_demean debug name) in
  out_edges es "apply_fov_mask" =
    [Edge "apply_fov_mask" "out_file" None "ref_msk_post" "in_file";
     Edge "apply_fov_mask" "out_file" None "outputnode" "out_reference"] ∧
  feeders es "apply_fov_mask" "in_file" =
    [Edge "unwarp_reference" "output_image" None "apply_fov_mask" "in_file"] ∧
  feeders es "apply_fov_mask" "mask_file" =
    [Edge "fmap_fov2ref_apply" "output_image" None "apply_fov_mask" "mask_file"] ∧
  feeders es "outputnode" "out_mask" =
    [Edge "ref_msk_post" "mask_file" None "outputnode" "out_mask"] ∧
  out_edges es "jac_dfm" =
    [Edge "jac_dfm" "jacobian_image" None "outputnode" "out_jacobian"] ∧
  ¬ upstream es "outputnode" "out_reference" "jac_dfm" ∧
  ¬ upstream es "outputnode" "out_mask" "jac_dfm".
Proof.
  intros es. subst es. rewrite init_sdc_edges.
  repeat apply conj;
    try (destruct fmap_bspline, fmap_demean; vm_compute; reflexivity).
  - destruct fmap_bspline, fmap_demean;
      apply (not_upstream _ sdc_reference_sources); vm_compute; reflexivity.
  - destruct fmap_bspline, fmap_demean;
      apply (not_upstream _ ("ref_msk_post" :: sdc_reference_sources));
      vm_compute; reflexivity.
Qed.

(** ** The arguments that configure nodes of the fieldmap workflow *)

(** X5. In [init_sdc_unwarp_wf] the arguments [debug] and [ants_nthreads]
    configure the registration node only ([debug] selects its settings file)
    and [reportlets_dir] the two report sinks only: the edges and all other
    nodes are the same for all values of these arguments and of [name]. *)
Theorem sdc_configuration reportlets_dir ants_nthreads debug name
    reportlets_dir' ants_nthreads' debug' name' fmap_bspline fmap_demean :
  let wf := init_sdc_unwarp_wf reportlets_dir ants_nthreads fmap_bspline
              fmap_demean debug name in
  let wf' := init_sdc_unwarp_wf reportlets_dir' ants_nthreads' fmap_bspline
               fmap_demean debug' name' in
  wf_edges wf = wf_edges wf' ∧
  nodes_except ["fmap2ref_reg"; "ds_reg"; "ds_reg_vsm"] wf =
    nodes_except ["fmap2ref_reg"; "ds_reg"; "ds_reg_vsm"] wf' ∧
  find_node wf "fmap2ref_reg" =
    Some (Node "fmap2ref_reg"
            (ANTSRegistrationRPT
               (if debug
                then "fmriprep/data/fmap-any_registration_testing.json"
                else "fmriprep/data/fmap-any_registration.json")
               ants_nthreads) None []) ∧
  find_node wf "ds_reg" =
    Some (Node "ds_reg" (DerivativesDataSink reportlets_dir "fmap_reg") None []) ∧
  find_node wf "ds_reg_vsm" =
    Some (Node "ds_reg_vsm" (DerivativesDataSink reportlets_dir "fmap_reg_vsm")
            None []) ∧
  wf_name wf = name.
Proof.
  intros wf wf'. subst wf wf'. repeat apply conj.
  - etransitivity; [apply init_sdc_edges|symmetry; apply init_sdc_edges].
  - destruct fmap_bspline, fmap_demean; vm_compute; reflexivity.
  - destruct fmap_bspline, fmap_demean, debug; vm_compute; reflexivity.
  - destruct fmap_bspline, fmap_demean; vm_compute; reflexivity.
  - destruct fmap_bspline, fmap_demean; vm_compute; reflexivity.
  - destruct fmap_bspline, fmap_demean; vm_compute; reflexivity.
Qed.

(** ** The warp that is delivered is the warp that is applied *)

(** X6. In the fieldmap workflow one output of [vsm2dfm] is the transform
    applied to the reference, the field of the Jacobian and [out_warp]; in
    the PEPOLAR workflow one output of [to_ants] is the transform applied and
    [out_warp], and the first of the estimator's Jacobian maps is both the
    operand of the multiplication and [out_jacobian], as the first of its
    warps is the one converted. *)
Theorem delivered_warp_is_applied :
  (∀ reportlets_dir ants_nthreads fmap_bspline fmap_demean debug name,
     out_edges (wf_edges (init_sdc_unwarp_wf reportlets_dir ants_nthreads
                            fmap_bspline fmap_demean debug name)) "vsm2dfm" =
       [Edge "vsm2dfm" "out_file" None "unwarp_reference" "transforms";
        Edge "vsm2dfm" "out_file" None "outputnode" "out_warp";
        Edge "vsm2dfm" "out_file" None "jac_dfm" "deformationField"]) ∧
  (∀ fmaps bids_dir name wf,
     init_pepolar_unwarp_report_wf fmaps bids_dir name = Ok wf →
     out_edges (wf_edges wf) "to_ants" =
       [Edge "to_ants" "out" None "unwarp_reference" "transforms";
        Edge "to_ants" "out" None "outputnode" "out_warp"] ∧
     out_edges (wf_edges wf) "topup" =
       [Edge "topup" "out_warps" (Some h_pick_first) "cphdr_warp" "in_file";
        Edge "topup" "out_jacs" (Some h_pick_first) "apply_jacobian" "operand_file";
        Edge "topup" "out_jacs" (Some h_pick_first) "outputnode" "out_jacobian"] ∧
     feeders (wf_edges wf) "to_ants" "in_file" =
       [Edge "cphdr_warp" "out_file" None "to_ants" "in_file"]).
Proof.
  split.
  - intros. rewrite init_sdc_edges.
    destruct fmap_bspline, fmap_demean; vm_compute; reflexivity.
  - intros fmaps bids_dir name wf Hwf. rewrite (init_pepolar_edges _ _ _ _ Hwf).
    repeat apply conj; vm_compute; reflexivity.
Qed.

(** ** The outcome of the PEPOLAR builder *)

Lemma epi_files_spec (fmaps : list (gmap string string)) :
  Forall (fun fmap => is_Some (fmap !! "epi")) fmaps →
  epi_files fmaps = Ok (List.map (fun fmap => default "" (fmap !! "epi")) fmaps).
Proof.
  unfold epi_files. induction 1 as [|fmap l [v Hv] _ IH].
  - reflexivity.
  - cbn [mapM List.map]. rewrite IH. unfold getitem. rewrite Hv. reflexivity.
Qed.

Lemma epi_files_missing (fmaps : list (gmap string string)) :
  Exists (fun fmap => fmap !! "epi" = None) fmaps →
  epi_files fmaps = Raise (KeyError "epi").
Proof.
  unfold epi_files. induction 1 as [fmap l Hnone|fmap l _ IH]; cbn [mapM].
  - unfold getitem. rewrite Hnone. reflexivity.
  - rewrite IH. unfold getitem. destruct (fmap !! "epi"); reflexivity.
Qed.

(** X7. [init_pepolar_unwarp_report_wf] raises [KeyError('epi')] when an
    entry of [fmaps] has no ['epi'] key; when every entry has one it returns
    a graph in which the bias correction, the header repair and the masking
    node each hold the list of the ['epi'] paths, one per entry and in the
    order of [fmaps], and the table node holds [bids_dir] and [fmaps]
    themselves. *)
Theorem pepolar_builder_outcome fmaps bids_dir name :
  (Exists (fun fmap => fmap !! "epi" = None) fmaps →
   init_pepolar_unwarp_report_wf fmaps bids_dir name = Raise (KeyError "epi")) ∧
  (Forall (fun fmap => is_Some (fmap !! "epi")) fmaps →
   ∃ wf, init_pepolar_unwarp_report_wf fmaps bids_dir name = Ok wf ∧
     let epis := List.map (fun fmap => default "" (fmap !! "epi")) fmaps in
     (n_inputs <$> find_node wf "mag_inu") = Some [("input_image", IStrs epis)] ∧
     (n_inputs <$> find_node wf "cphdr") = Some [("hdr_file", IStrs epis)] ∧
     (n_inputs <$> find_node wf "apply_skullstrip") = Some [("in_file", IStrs epis)] ∧
     (n_inputs <$> find_node wf "generate_idata") =
       Some [("bids_dir", IStr bids_dir); ("fmaps", IDicts fmaps)] ∧
     wf_name wf = name).
Proof.
  split.
  - intros Hex. unfold init_pepolar_unwarp_report_wf.
    now rewrite (epi_files_missing fmaps Hex).
  - intros Hall. unfold init_pepolar_unwarp_report_wf.
    rewrite (epi_files_spec fmaps Hall). simpl.
    eexists. split; [reflexivity|].
    repeat apply conj; vm_compute; reflexivity.
Qed.

Lemma pepolar_builder_outcome_witness :
  init_pepolar_unwarp_report_wf [{[ "epi" := "a.nii" ]}; {[ "magnitude" := "b.nii" ]}]
    "/data" "w" = Raise (KeyError "epi").
Proof.
  apply (proj1 (pepolar_builder_outcome
                  [{[ "epi" := "a.nii" ]}; {[ "magnitude" := "b.nii" ]}] "/data" "w")).
  apply Exists_cons_tl, Exists_cons_hd. vm_compute. reflexivity.
Defined.

(** ** The brain mask of the reference in the PEPOLAR workflow *)

(** The output of a node without outgoing edges reaches no port. *)
Lemma no_out_edges_not_upstream es n :
  out_edges es n = [] → ∀ d p, ¬ upstream es d p n.
Proof.
  intros Hout d p (e & He & Hup).
  assert (Hsrc : ∀ e', In e' es → e_src e' = n → False).
  { intros e' He' Hs. assert (Hin : In e' (out_edges es n)).
    { unfold out_edges. apply filter_In. split; [exact He'|].
      now apply String.eqb_eq. }
    rewrite Hout in Hin. destruct Hin. }
  apply feeders_spec in He as (He & _).
  destruct Hup as [Hs|Hp]; [now apply (Hsrc e)|].
  inversion Hp as [e' He' Hs Hd|e' m He' _ Hs Hd]; now apply (Hsrc e').
Qed.

(** X8. In every graph of [init_pepolar_unwarp_report_wf] the input [in_mask]
    is read by [explicit_mask_epi] only, and the output of that node feeds
    nothing: no input port of any node, hence no output of the workflow, is
    computed from [in_mask]. *)
Theorem pepolar_in_mask_unused fmaps bids_dir name wf :
  init_pepolar_unwarp_report_wf fmaps bids_dir name = Ok wf →
  port_edges (wf_edges wf) "inputnode" "in_mask" =
    [Edge "inputnode" "in_mask" None "explicit_mask_epi" "mask_file"] ∧
  out_edges (wf_edges wf) "explicit_mask_epi" = [] ∧
  ∀ d p, ¬ upstream (wf_edges wf) d p "explicit_mask_epi".
Proof.
  intros Hwf. rewrite (init_pepolar_edges _ _ _ _ Hwf).
  split; [vm_compute; reflexivity|]. split; [vm_compute; reflexivity|].
  apply no_out_edges_not_upstream. vm_compute. reflexivity.
Qed.

Lemma pepolar_in_mask_unused_witness :
  ∃ wf, init_pepolar_unwarp_report_wf one_fmap "/data" "pepolar_unwarp_wf" = Ok wf ∧
    port_edges (wf_edges wf) "inputnode" "in_mask" =
      [Edge "inputnode" "in_mask" None "explicit_mask_epi" "mask_file"] ∧
    out_edges (wf_edges wf) "explicit_mask_epi" = [] ∧
    ∀ d p, ¬ upstream (wf_edges wf) d p "explicit_mask_epi".
Proof.
  destruct (init_pepolar_unwarp_report_wf one_fmap "/data" "pepolar_unwarp_wf")
    as [wf|e] eqn:Hwf; [|vm_compute in Hwf; discriminate Hwf].
  exists wf. split; [reflexivity|].
  exact (pepolar_in_mask_unused one_fmap "/data" "pepolar_unwarp_wf" wf Hwf).
Defined.

(** * Further properties of the helpers *)

(** ** The direction code for FUGUE *)

Lemma replace_chain_map s :
  replace "k" "z" (replace "j" "y" (replace "i" "x" s)) = string_map fugue_axis s.
Proof.
  induction s as [|c s IH]; [reflexivity|]. simpl. rewrite IH. f_equal.
  unfold fugue_axis.
  destruct (Ascii.eqb_spec c "i") as [->|Hi]; [reflexivity|].
  destruct (Ascii.eqb_spec c "j") as [->|Hj]; [reflexivity|].
  destruct (Ascii.eqb_spec c "k") as [->|Hk]; reflexivity.
Qed.

Lemma string_map_length f s : String.length (string_map f s) = String.length s.
Proof. induction s; simpl; congruence. Qed.

Lemma string_map_get f s n :
  String.get n (string_map f s) = option_map f (String.get n s).
Proof.
  revert n. induction s as [|c s IH]; intros [|n]; simpl; auto.
Qed.

Lemma fugue_axis_dash c : Ascii.eqb (fugue_axis c) "-" = Ascii.eqb c "-".
Proof.
  unfold fugue_axis.
  destruct (Ascii.eqb_spec c "i") as [->|Hi]; [reflexivity|].
  destruct (Ascii.eqb_spec c "j") as [->|Hj]; [reflexivity|].
  destruct (Ascii.eqb_spec c "k") as [->|Hk]; reflexivity.
Qed.

Lemma eqb_cons_dash c s :
  String.eqb (String c s) "-" = Ascii.eqb c "-" && String.eqb s "".
Proof. reflexivity. Qed.

Lemma string_map_eqb_empty f s :
  String.eqb (string_map f s) "" = String.eqb s "".
Proof. destruct s; reflexivity. Qed.

Lemma endswith_dash_map s :
  endswith (string_map fugue_axis s) "-" = endswith s "-".
Proof.
  induction s as [|c s IH]; [reflexivity|].
  cbn [string_map endswith]. rewrite IH, !eqb_cons_dash.
  now rewrite fugue_axis_dash, string_map_eqb_empty.
Qed.

Lemma fugue_axis_no_axis c : no_axis_letter_b (fugue_axis c) = true.
Proof.
  unfold fugue_axis, no_axis_letter_b.
  destruct (Ascii.eqb_spec c "i") as [->|Hi]; [reflexivity|].
  destruct (Ascii.eqb_spec c "j") as [->|Hj]; [reflexivity|].
  destruct (Ascii.eqb_spec c "k") as [->|Hk]; [reflexivity|].
  destruct (Ascii.eqb_spec c "i"); [contradiction|].
  destruct (Ascii.eqb_spec c "j"); [contradiction|].
  destruct (Ascii.eqb_spec c "k"); [contradiction|]. reflexivity.
Qed.

(** X9. [_get_pedir_fugue] raises [KeyError] when the dictionary has no
    phase-encoding direction and [AttributeError] when the direction is a
    number; for a string it returns a string of the same length that has [x],
    [y], [z] where the code has [i], [j], [k] and the characters of the code
    elsewhere, so that it holds no axis letter any more and ends with the
    sign marker exactly when the code does. *)
Theorem pedir_fugue_outcome (in_dict : gmap string jvalue) :
  match in_dict !! "PhaseEncodingDirection" with
  | None => _get_pedir_fugue in_dict = Raise (KeyError "PhaseEncodingDirection")
  | Some (JNum _) => _get_pedir_fugue in_dict = Raise AttributeError
  | Some (JStr s) =>
      ∃ out, _get_pedir_fugue in_dict = Ok out ∧
             String.length out = String.length s ∧
             (∀ n, String.get n out = option_map fugue_axis (String.get n s)) ∧
             string_forall no_axis_letter_b out = true ∧
             endswith out "-" = endswith s "-"
  end.
Proof.
  unfold _get_pedir_fugue, getitem.
  destruct (in_dict !! "PhaseEncodingDirection") as [[s|t]|]; try reflexivity.
  simpl. rewrite replace_chain_map. eexists. split; [reflexivity|].
  split; [apply string_map_length|]. split; [apply string_map_get|].
  split; [|apply endswith_dash_map].
  induction s as [|c s IH]; [reflexivity|]. simpl.
  now rewrite fugue_axis_no_axis, IH.
Qed.

Lemma fugue_to_bids_map s :
  string_forall no_fugue_letter s = true →
  fugue_to_bids (string_map fugue_axis s) = s.
Proof.
  unfold fugue_to_bids. induction s as [|c s IH]; [reflexivity|].
  simpl. rewrite andb_true_iff. intros [Hc Hs]. rewrite (IH Hs). f_equal.
  unfold no_fugue_letter in Hc. rewrite negb_true_iff, !orb_false_iff in Hc.
  destruct Hc as [[Hx Hy] Hz]. unfold fugue_axis.
  destruct (Ascii.eqb_spec c "i") as [->|Hi]; [reflexivity|].
  destruct (Ascii.eqb_spec c "j") as [->|Hj]; [reflexivity|].
  destruct (Ascii.eqb_spec c "k") as [->|Hk]; [reflexivity|].
  now rewrite Hz, Hy, Hx.
Qed.

(** X10. On a code without the letters [x], [y], [z] the conversion of
    [_get_pedir_fugue] loses nothing: replacing [x], [y], [z] by [i], [j],
    [k] in its result gives the code back. *)
Theorem pedir_fugue_round_trip (in_dict : gmap string jvalue) s out :
  in_dict !! "PhaseEncodingDirection" = Some (JStr s) →
  string_forall no_fugue_letter s = true →
  _get_pedir_fugue in_dict = Ok out →
  fugue_to_bids out = s.
Proof.
  intros Hd Hs. unfold _get_pedir_fugue, getitem. rewrite Hd. simpl.
  rewrite replace_chain_map. intros [= <-]. now apply fugue_to_bids_map.
Qed.

Lemma pedir_fugue_round_trip_witness : fugue_to_bids "y-" = "j-".
Proof.
  apply (pedir_fugue_round_trip {[ "PhaseEncodingDirection" := JStr "j-" ]} "j-" "y-");
    vm_compute; reflexivity.
Defined.

(** Without the condition the code cannot be recovered. *)
Example pedir_fugue_not_injective :
  _get_pedir_fugue {[ "PhaseEncodingDirection" := JStr "x" ]} =
  _get_pedir_fugue {[ "PhaseEncodingDirection" := JStr "i" ]}.
Proof. vm_compute. reflexivity. Qed.

(** ** The rows of the acquisition table *)

Lemma substring_0_1_nil : substring 0 1 "" = "".
Proof. reflexivity. Qed.

(** X11. A row of the table depends on the phase-encoding code through its
    first character and through whether it ends with the sign marker only:
    two files with the same readout time whose codes agree in these two give
    the same row, whatever else the codes hold. *)
Theorem gen_line_arr_lenient layout layout' in_file in_file' ped ped' :
  get_metadata layout in_file !! "TotalReadoutTime" =
    get_metadata layout' in_file' !! "TotalReadoutTime" →
  get_metadata layout in_file !! "PhaseEncodingDirection" = Some (JStr ped) →
  get_metadata layout' in_file' !! "PhaseEncodingDirection" = Some (JStr ped') →
  substring 0 1 ped = substring 0 1 ped' →
  endswith ped "-" = endswith ped' "-" →
  gen_line_arr layout in_file = gen_line_arr layout' in_file'.
Proof.
  intros Ht Hp Hp' Hfirst Hsign. unfold gen_line_arr, getitem.
  rewrite Ht, Hp, Hp'.
  destruct (get_metadata layout' in_file' !! "TotalReadoutTime");
    [|reflexivity].
  simpl. now rewrite Hfirst, Hsign.
Qed.

Lemma gen_line_arr_lenient_witness :
  gen_line_arr {[ "a.nii" := <["PhaseEncodingDirection" := JStr "j+"]>
                               (<["TotalReadoutTime" := JNum "0.05"]> ∅) ]} "a.nii" =
  gen_line_arr {[ "b.nii" := <["PhaseEncodingDirection" := JStr "jik"]>
                               (<["TotalReadoutTime" := JNum "0.05"]> ∅) ]} "b.nii".
Proof.
  apply (gen_line_arr_lenient _ _ "a.nii" "b.nii" "j+" "jik");
    vm_compute; reflexivity.
Defined.

Lemma gen_line_arr_inv layout in_file row :
  gen_line_arr layout in_file = Ok row →
  valid_meta (get_metadata layout in_file).
Proof.
  unfold gen_line_arr, getitem, valid_meta.
  destruct (get_metadata layout in_file !! "TotalReadoutTime") as [trt|];
    [|discriminate]. simpl.
  destruct (get_metadata layout in_file !! "PhaseEncodingDirection") as [[ped|t]|];
    try discriminate. simpl.
  destruct (pe_axes !! substring 0 1 ped) as [axis|] eqn:Hax; [|discriminate].
  intros _. split; [eauto|]. exists ped. split; [reflexivity|].
  apply pe_axes_lookup in Hax.
  destruct Hax as [[-> _]|[[-> _]|[-> _]]]; axis_letter.
Qed.

Lemma gen_line_inv ds layout in_file oneline txt :
  _gen_line ds layout in_file oneline = Ok txt →
  readable ds in_file oneline ∧ valid_meta (get_metadata layout in_file).
Proof.
  unfold _gen_line, nb_load_shape, readable.
  destruct (ds_shape ds !! in_file) as [sh|]; [|discriminate]. simpl.
  destruct ((List.length sh =? 3) || oneline) eqn:Hc.
  - simpl. destruct (gen_line_arr layout in_file) as [row|e] eqn:Hrow;
      [|discriminate]. intros _. split; [|eapply gen_line_arr_inv, Hrow].
    exists sh. split; [reflexivity|].
    apply orb_true_iff in Hc as [Hc| ->]; [|now left].
    right. left. now apply Nat.eqb_eq.
  - destruct (sh !! 3) as [v|] eqn:Hv; [|discriminate]. simpl.
    destruct (gen_line_arr layout in_file) as [row|e] eqn:Hrow; [|discriminate].
    intros _. split; [|eapply gen_line_arr_inv, Hrow].
    exists sh. split; [reflexivity|]. right. right. eauto.
Qed.

Lemma generate_idata_inv ds name_source fmaps bids_dir r :
  _generate_idata ds name_source fmaps bids_dir = Ok r →
  ∃ epis, epi_files fmaps = Ok epis ∧
    readable ds name_source true ∧
    valid_meta (get_metadata (ds_layout ds bids_dir) name_source) ∧
    Forall (fun f => readable ds f false ∧
                     valid_meta (get_metadata (ds_layout ds bids_dir) f)) epis.
Proof.
  unfold _generate_idata. set (layout := ds_layout ds bids_dir).
  destruct (_gen_line ds layout name_source true) as [first|e] eqn:H0;
    [|discriminate]. simpl.
  apply gen_line_inv in H0 as [Hr0 Hm0].
  destruct (mapM _ fmaps) as [rest|e] eqn:Hrest; [|discriminate]. intros _.
  assert (∃ epis, epi_files fmaps = Ok epis ∧
            Forall (fun f => readable ds f false ∧
                             valid_meta (get_metadata layout f)) epis)
    as (epis & Hepis & Hall).
  { clear -Hrest. revert rest Hrest. unfold epi_files.
    induction fmaps as [|fmap fmaps IH]; intros rest; cbn [mapM].
    - intros _. exists []. split; [reflexivity|constructor].
    - destruct (getitem fmap "epi") as [epi|e]; [|discriminate]. simpl.
      destruct (_gen_line ds layout epi false) as [txt|e] eqn:Hl; [|discriminate].
      simpl. destruct (mapM _ fmaps) as [rest'|e] eqn:Hm in |- *; [|discriminate].
      intros _. destruct (IH rest' Hm) as (epis & -> & Hall).
      exists (epi :: epis). split; [reflexivity|].
      constructor; [eapply gen_line_inv, Hl|exact Hall]. }
  exists epis. auto.
Qed.

(** X12. [_generate_idata] returns exactly when every entry of [fmaps] has an
    ['epi'] key, the image of the reference can be loaded, the image of every
    opposite-phase file can be loaded and has three axes or a fourth one, and
    the metadata of each of these files hold a readout time and a
    phase-encoding direction that is a string starting with [i], [j] or [k];
    in every other case it raises. *)
Theorem generate_idata_succeeds_iff ds name_source fmaps bids_dir :
  is_ok (_generate_idata ds name_source fmaps bids_dir) = true ↔
  ∃ epis, epi_files fmaps = Ok epis ∧
    readable ds name_source true ∧
    valid_meta (get_metadata (ds_layout ds bids_dir) name_source) ∧
    Forall (fun f => readable ds f false ∧
                     valid_meta (get_metadata (ds_layout ds bids_dir) f)) epis.
Proof.
  split.
  - destruct (_generate_idata ds name_source fmaps bids_dir) as [r|e] eqn:Hrun;
      [|discriminate]. intros _. eapply generate_idata_inv, Hrun.
  - intros (epis & Hepis & Hr0 & Hm0 & Hall).
    destruct (generate_idata_rows ds name_source fmaps bids_dir epis
                Hepis Hr0 Hm0 Hall) as (rows & -> & _). reflexivity.
Qed.

Lemma gen_line_readable ds layout in_file oneline :
  readable ds in_file oneline →
  _gen_line ds layout in_file oneline =
  (row ← gen_line_arr layout in_file; Ok (render row)).
Proof.
  intros (sh & Hsh & Hdim). unfold _gen_line, nb_load_shape. rewrite Hsh. simpl.
  assert (Hvols : ∃ v, (if (List.length sh =? 3) || oneline
                         then Ok 1
                         else match sh !! 3 with
                              | Some v => Ok v
                              | None => Raise IndexError
                              end) = Ok v).
  { destruct Hdim as [-> | [Hlen | [v Hv]]].
    - rewrite orb_true_r. eauto.
    - apply Nat.eqb_eq in Hlen. rewrite Hlen. simpl. eauto.
    - rewrite Hv. destruct (_ || _); eauto. }
  destruct Hvols as [v ->]. simpl.
  destruct (gen_line_arr layout in_file); reflexivity.
Qed.

(** X13. The errors of [_gen_line], in the order in which the function meets
    them: an image that cannot be loaded; then, when more than one line may
    be asked for, a shape with neither three axes nor a fourth one; then a
    missing readout time; then a missing phase-encoding direction, one that
    is a number, and one whose first character is no axis letter. *)
Theorem gen_line_errors ds layout in_file oneline :
  let meta := get_metadata layout in_file in
  (ds_shape ds !! in_file = None →
   _gen_line ds layout in_file oneline = Raise (FileNotFoundError in_file)) ∧
  (∀ sh, ds_shape ds !! in_file = Some sh → oneline = false →
         List.length sh ≠ 3 → sh !! 3 = None →
         _gen_line ds layout in_file oneline = Raise IndexError) ∧
  (readable ds in_file oneline →
   (meta !! "TotalReadoutTime" = None →
    _gen_line ds layout in_file oneline = Raise (KeyError "TotalReadoutTime")) ∧
   (is_Some (meta !! "TotalReadoutTime") →
    (meta !! "PhaseEncodingDirection" = None →
     _gen_line ds layout in_file oneline =
       Raise (KeyError "PhaseEncodingDirection")) ∧
    (∀ t, meta !! "PhaseEncodingDirection" = Some (JNum t) →
          _gen_line ds layout in_file oneline = Raise AttributeError) ∧
    (∀ ped, meta !! "PhaseEncodingDirection" = Some (JStr ped) →
            bad_axis ped →
            _gen_line ds layout in_file oneline =
              Raise (KeyError (substring 0 1 ped))))).
Proof.
  intros meta. split; [|split].
  - intros Hnone. unfold _gen_line, nb_load_shape. now rewrite Hnone.
  - intros sh Hsh -> Hlen H3. unfold _gen_line, nb_load_shape.
    rewrite Hsh. simpl. apply Nat.eqb_neq in Hlen. rewrite Hlen, H3. reflexivity.
  - intros Hr. rewrite (gen_line_readable ds layout in_file oneline Hr).
    unfold gen_line_arr, getitem. fold meta. split.
    + intros ->. reflexivity.
    + intros [trt ->]. simpl. split; [|split].
      * intros ->. reflexivity.
      * intros t ->. reflexivity.
      * intros ped -> Hbad. simpl. now rewrite (pe_axes_None _ Hbad).
Qed.

Lemma gen_line_errors_witness :
  _gen_line ex_ds (ds_layout ex_ds "/data") "sub-01_T1w.nii.gz" false =
  Raise (FileNotFoundError "sub-01_T1w.nii.gz").
Proof.
  apply (proj1 (gen_line_errors ex_ds (ds_layout ex_ds "/data")
                  "sub-01_T1w.nii.gz" false)).
  vm_compute. reflexivity.
Defined.

Example gen_line_two_axes :
  _gen_line (Dataset {[ "slice.nii" := [64; 64] ]} (fun _ => ∅) "/work") ∅
    "slice.nii" false = Raise IndexError
  ∧ _gen_line (Dataset {[ "slice.nii" := [64; 64] ]} (fun _ => ∅) "/work") ∅
    "slice.nii" true = Raise (KeyError "TotalReadoutTime").
Proof. split; vm_compute; reflexivity. Qed.

(** ** The lines of the table *)

Lemma count_char_append c s t :
  count_char c (s +:+ t) = count_char c s + count_char c t.
Proof.
  induction s as [|a s IH]; [reflexivity|].
  change (String a s +:+ t) with (String a (s +:+ t)).
  cbn [count_char]. rewrite IH. lia.
Qed.

Lemma count_char_render meta row :
  pe_entry meta row →
  count_char "010" (py_str (default (JStr "") (meta !! "TotalReadoutTime"))) = 0 →
  count_char "010" (render row) = 1.
Proof.
  intros (trt & ped & axis & Ht & _ & Hax & ->) Hnl. rewrite Ht in Hnl.
  simpl in Hnl. apply pe_axes_lookup in Hax. unfold render.
  rewrite count_char_append.
  destruct Hax as [[_ ->]|[[_ ->]|[_ ->]]]; destruct (endswith ped "-");
    cbn [list_insert insert join]; rewrite ?count_char_append; simpl;
    rewrite Hnl; reflexivity.
Qed.

Lemma count_char_written c l :
  count_char c (written l) = list_sum (List.map (count_char c) l).
Proof.
  induction l as [|s l IH]; [reflexivity|].
  cbn [written fold_right List.map list_sum]. fold (written l).
  now rewrite count_char_append, IH.
Qed.

(** X14. When no readout time is written with a line break, the text that
    [_generate_idata] writes for a reference and N opposite-phase files has
    exactly N + 1 line breaks: one line for each file. *)
Theorem generate_idata_line_count ds name_source fmaps bids_dir epis :
  let layout := ds_layout ds bids_dir in
  epi_files fmaps = Ok epis →
  readable ds name_source true →
  valid_meta (get_metadata layout name_source) →
  Forall (fun f => readable ds f false ∧ valid_meta (get_metadata layout f)) epis →
  Forall (fun f => count_char "010"
            (py_str (default (JStr "")
                       (get_metadata layout f !! "TotalReadoutTime"))) = 0)
         (name_source :: epis) →
  ∃ txt, _generate_idata ds name_source fmaps bids_dir =
           Ok (os_path_abspath ds "idata.txt", txt) ∧
         count_char "010" txt = S (List.length fmaps).
Proof.
  intros layout Hepis Hr0 Hm0 Hall Hnl.
  destruct (generate_idata_rows ds name_source fmaps bids_dir epis
              Hepis Hr0 Hm0 Hall) as (rows & Hrun & Hf2).
  eexists. split; [exact Hrun|].
  rewrite count_char_written, <- (mapM_length _ _ _ Hepis).
  change (S (List.length epis)) with (List.length (name_source :: epis)).
  fold layout in Hf2. clear Hrun. revert Hf2 Hnl.
  generalize (name_source :: epis). intros files Hf2 Hnl.
  induction Hf2 as [|f row fs rows' He _ IH]; [reflexivity|].
  apply Forall_cons in Hnl as [Hf Hnl].
  change (list_sum (List.map (count_char "010") (List.map render (row :: rows'))))
    with (count_char "010" (render row) +
          list_sum (List.map (count_char "010") (List.map render rows'))).
  rewrite (count_char_render _ _ He Hf), (IH Hnl). reflexivity.
Qed.

Lemma generate_idata_line_count_witness :
  ∃ txt, _generate_idata ex_ds "sub-01_bold.nii.gz" ex_fmaps "/data" =
           Ok (os_path_abspath ex_ds "idata.txt", txt) ∧
         count_char "010" txt = S (List.length ex_fmaps).
Proof.
  destruct ex_ds_well_formed as (Hr0 & Hm0 & Hall).
  apply (generate_idata_line_count ex_ds "sub-01_bold.nii.gz" ex_fmaps "/data"
           ["sub-01_dir-AP_epi.nii.gz"; "sub-01_dir-PA_epi.nii.gz"]).
  - vm_compute. reflexivity.
  - exact Hr0.
  - exact Hm0.
  - exact Hall.
  - repeat constructor; vm_compute; reflexivity.
Defined.

(** ** The conversion to rad/s and the outcome of the two helpers *)

Lemma Forall2_map_same {A B} (R : B → B → Prop) (f g : A → B) l :
  (∀ a, R (f a) (g a)) → Forall2 R (List.map f l) (List.map g l).
Proof. intros H. induction l; simpl; constructor; auto. Qed.

(** The selection reads the mask through its sign only. *)
Lemma select_gt0 data msk msk' :
  List.map gt0 msk = List.map gt0 msk' → select data msk = select data msk'.
Proof.
  unfold select. revert msk msk'.
  induction data as [|d data IH]; intros [|m msk] [|m' msk']; simpl;
    try discriminate; auto.
  intros [= Hm Hrest]. rewrite Hm. destruct (gt0 m'); simpl;
    now rewrite (IH msk msk' Hrest).
Qed.

Lemma feq_zero v : feq v 0 ↔ (v =? 0)%float = true.
Proof.
  unfold feq. split; [|auto].
  intros [H|[_ H]]; [exact H|discriminate].
Qed.

Section HelperOutcomes.

Variable genfname : string → string → string.

(** X15. [_hz2rads] keeps the sign of every voxel: a voxel of the image it
    writes is positive, zero or not a number exactly when the voxel of the
    input is, so that the voxels selected by a threshold at zero are the
    same before and after the conversion. *)
Theorem hz2rads_keeps_sign in_file out_file (fs : gmap string image) nii :
  fs !! in_file = Some nii →
  ∃ out,
    written_image (_hz2rads genfname in_file out_file fs) =
      Some (default_name genfname in_file "rads" out_file, out) ∧
    List.map gt0 (dataobj out) = List.map gt0 (dataobj nii) ∧
    Forall2 (fun w v => (is_num w ↔ is_num v) ∧ (feq w 0 ↔ feq v 0))
            (dataobj out) (dataobj nii) ∧
    (∀ data, select data (dataobj out) = select data (dataobj nii)).
Proof.
  intros Hin. eexists. split.
  - unfold _hz2rads, nb_load. rewrite Hin. simpl.
    rewrite lookup_insert_eq. reflexivity.
  - simpl. assert (Hgt : List.map gt0
      (List.map (fun v => (v * 2 * pi)%float) (dataobj nii)) =
      List.map gt0 (dataobj nii)).
    { rewrite List.map_map. apply map_ext. intros v. apply hz2rads_voxel_sign. }
    split; [exact Hgt|]. split.
    + rewrite <- (List.map_id (dataobj nii)) at 2.
      apply Forall2_map_same. intros v.
      destruct (hz2rads_voxel_sign v) as (_ & Hnan & Hzero).
      unfold is_num. rewrite !feq_zero, Hnan, Hzero. tauto.
    + intros data. now apply select_gt0.
Qed.

(** X16. The outcome of [_demean]: [FileNotFoundError] for the field when it
    cannot be loaded, else for the mask when it cannot be loaded, else
    [IndexError] unless the shape of the mask is the shape of the leading
    axes of the field, as many as the mask has. Otherwise, for a field with
    as many voxels as its shape says, it returns the output path (the one
    given, or the generated one) and stores there an image with the geometry
    of the field whose every voxel is the voxel of the field minus the median
    of the voxels selected: those at the places whose index on the leading
    axes is a place where the mask is positive. Every other file of the
    store is left as it was. *)
Theorem demean_outcome in_file in_mask out_file (fs : gmap string image) :
  let path := match out_file with
              | Some f => f
              | None => genfname in_file "demeaned"
              end in
  (fs !! in_file = None →
   _demean genfname in_file in_mask out_file fs =
     Raise (FileNotFoundError in_file)) ∧
  (∀ nii, fs !! in_file = Some nii → fs !! in_mask = None →
   _demean genfname in_file in_mask out_file fs =
     Raise (FileNotFoundError in_mask)) ∧
  (∀ nii msk, fs !! in_file = Some nii → fs !! in_mask = Some msk →
   shape msk ≠ take (List.length (shape msk)) (shape nii) →
   _demean genfname in_file in_mask out_file fs = Raise IndexError) ∧
  (∀ nii msk, fs !! in_file = Some nii → fs !! in_mask = Some msk →
   shape msk = take (List.length (shape msk)) (shape nii) →
   well_shaped nii →
   let block := size_of (drop (List.length (shape msk)) (shape nii)) in
   ∃ med fs',
     is_median (voxels_where (fun i => positive_at (dataobj msk) (i / block))
                             (dataobj nii)) med ∧
     _demean genfname in_file in_mask out_file fs = Ok (path, fs') ∧
     fs' !! path =
       Some (Image (shape nii) (List.map (fun v => (v - med)%float) (dataobj nii))
                   (affine nii) (header nii)) ∧
     (∀ p, p ≠ path → fs' !! p = fs !! p)).
Proof.
  intros path. unfold _demean, nb_load. repeat apply conj.
  - intros ->. reflexivity.
  - intros nii -> ->. reflexivity.
  - intros nii msk -> -> Hs. simpl. unfold boolean_index.
    now rewrite decide_False by exact Hs.
  - intros nii msk -> -> Hs Hws. simpl.
    rewrite (boolean_index_voxels_where nii msk Hws Hs). simpl.
    eexists _, _. split; [apply np_median_is_median|].
    assert (Hp : default_name genfname in_file "demeaned" out_file = path)
      by (destruct out_file; reflexivity).
    rewrite Hp. split; [reflexivity|].
    split; [apply lookup_insert_eq|].
    intros p Hne. now apply lookup_insert_ne.
Qed.

(** X17. The outcome of [_hz2rads]: [FileNotFoundError] when the input cannot
    be loaded; otherwise it returns the output path (the one given, or the
    generated one), stores there the image of the input's shape, affine and
    header whose voxels are those of the input times the double nearest to
    2 pi, in the same order, and leaves every other file of the store as it
    was. *)
Theorem hz2rads_outcome in_file out_file (fs : gmap string image) :
  let path := match out_file with
              | Some f => f
              | None => genfname in_file "rads"
              end in
  match fs !! in_file with
  | None =>
      _hz2rads genfname in_file out_file fs = Raise (FileNotFoundError in_file)
  | Some nii =>
      ∃ fs', _hz2rads genfname in_file out_file fs = Ok (path, fs') ∧
        fs' !! path =
          Some (Image (shape nii)
                      (List.map (fun v => (v * 0x1.921fb54442d18p+2)%float)
                                (dataobj nii))
                      (affine nii) (header nii)) ∧
        (∀ p, p ≠ path → fs' !! p = fs !! p) ∧
        (path ≠ in_file → fs' !! in_file = Some nii)
  end.
Proof.
  intros path. unfold _hz2rads, nb_load.
  destruct (fs !! in_file) as [nii|] eqn:Hin; [|reflexivity]. simpl.
  assert (Hp : default_name genfname in_file "rads" out_file = path)
    by (destruct out_file; reflexivity).
  rewrite Hp. eexists. split; [reflexivity|].
  split; [|split].
  - rewrite lookup_insert_eq. do 2 f_equal. apply map_ext. intros v.
    apply mul_two_pi.
  - intros p Hne. now apply lookup_insert_ne.
  - intros Hne. now rewrite lookup_insert_ne.
Qed.

End HelperOutcomes.

Lemma hz2rads_keeps_sign_witness :
  ∃ out,
    written_image (_hz2rads ex_genfname "vsm.nii" None ex_fs) =
      Some (default_name ex_genfname "vsm.nii" "rads" None, out) ∧
    List.map gt0 (dataobj out) = List.map gt0 (dataobj ex_field) ∧
    Forall2 (fun w v => (is_num w ↔ is_num v) ∧ (feq w 0 ↔ feq v 0))
            (dataobj out) (dataobj ex_field) ∧
    (∀ data, select data (dataobj out) = select data (dataobj ex_field)).
Proof.
  apply (hz2rads_keeps_sign ex_genfname "vsm.nii" None ex_fs ex_field).
  vm_compute. reflexivity.
Defined.

(** The mask of the store on the grid of the warp: a block is the three
    components of a voxel. *)
Lemma demean_outcome_witness :
  ∃ med fs',
    is_median (voxels_where (fun i => positive_at (dataobj ex_mask) (i / 3))
                            (dataobj ex_warp)) med ∧
    _demean ex_genfname "warp.nii" "mask.nii" (Some "out.nii")
      (<["warp.nii" := ex_warp]> ex_fs) = Ok ("out.nii", fs') ∧
    fs' !! "out.nii" =
      Some (Image (shape ex_warp)
                  (List.map (fun v => (v - med)%float) (dataobj ex_warp))
                  (affine ex_warp) (header ex_warp)) ∧
    (∀ p, p ≠ "out.nii" → fs' !! p = (<["warp.nii" := ex_warp]> ex_fs) !! p).
Proof.
  apply (proj2 (proj2 (proj2 (demean_outcome ex_genfname "warp.nii" "mask.nii"
           (Some "out.nii") (<["warp.nii" := ex_warp]> ex_fs)))) ex_warp ex_mask).
  - apply lookup_insert_eq.
  - vm_compute. reflexivity.
  - reflexivity.
  - reflexivity.
Defined.

(** ** The mask of demeaning *)

Section DemeanAlgebra.

Variable genfname : string → string → string.

Lemma demean_run in_file in_mask out_file (fs : gmap string image) nii msk :
  fs !! in_file = Some nii →
  fs !! in_mask = Some msk →
  shape nii = shape msk →
  _demean genfname in_file in_mask out_file fs =
    Ok (default_name genfname in_file "demeaned" out_file,
        <[default_name genfname in_file "demeaned" out_file :=
            Image (shape nii)
                  (List.map (fun v => (v - np_median (select (dataobj nii)
                                                         (dataobj msk)))%float)
                            (dataobj nii))
                  (affine nii) (header nii)]> fs).
Proof.
  intros Hin Hmask Hshape. unfold _demean, nb_load.
  rewrite Hin, Hmask. simpl.
  now rewrite (boolean_index_same_shape nii msk Hshape).
Qed.

(** X20. [_demean] reads the mask through the sign of its voxels only: two
    masks of the shape of the field that are positive at the same voxels give
    the same output image. *)
Theorem demean_mask_sign_only in_file in_mask out_file
    (fs fs' : gmap string image) nii msk msk' :
  fs !! in_file = Some nii →
  fs' !! in_file = Some nii →
  fs !! in_mask = Some msk →
  fs' !! in_mask = Some msk' →
  shape nii = shape msk →
  shape nii = shape msk' →
  List.map gt0 (dataobj msk) = List.map gt0 (dataobj msk') →
  written_image (_demean genfname in_file in_mask out_file fs) =
  written_image (_demean genfname in_file in_mask out_file fs') ∧
  is_ok (_demean genfname in_file in_mask out_file fs) = true.
Proof.
  intros Hin Hin' Hmask Hmask' Hshape Hshape' Hsign.
  rewrite (demean_run in_file in_mask out_file fs nii msk Hin Hmask Hshape).
  rewrite (demean_run in_file in_mask out_file fs' nii msk' Hin' Hmask' Hshape').
  simpl. rewrite !lookup_insert_eq. simpl. split; [|reflexivity].
  now rewrite (select_gt0 _ _ _ Hsign).
Qed.

End DemeanAlgebra.

Lemma demean_mask_sign_only_witness :
  written_image (_demean ex_genfname "vsm.nii" "mask.nii" None ex_fs) =
  written_image (_demean ex_genfname "vsm.nii" "mask.nii" None
     (<["mask.nii" := ex_mask_grey]> ex_fs)) ∧
  is_ok (_demean ex_genfname "vsm.nii" "mask.nii" None ex_fs) = true.
Proof.
  apply (demean_mask_sign_only ex_genfname "vsm.nii" "mask.nii" None ex_fs
           (<["mask.nii" := ex_mask_grey]> ex_fs) ex_field ex_mask ex_mask_grey).
  - vm_compute. reflexivity.
  - vm_compute. reflexivity.
  - vm_compute. reflexivity.
  - apply lookup_insert_eq.
  - reflexivity.
  - reflexivity.
  - vm_compute. reflexivity.
Defined.

(** ** The field-of-view proxy and the vector field *)

Lemma select_all_positive data msk :
  Forall (fun v => gt0 v = true) msk →
  List.length data = List.length msk →
  select data msk = data.
Proof.
  unfold select. intros Hpos. revert data.
  induction Hpos as [|m msk Hm _ IH]; intros [|d data]; simpl;
    try discriminate; auto.
  intros [= Hlen]. rewrite Hm. simpl. now rewrite IH.
Qed.

Lemma size_of_newaxis sh : size_of (take 3 sh ++ 1 :: drop 3 sh) = size_of sh.
Proof.
  rewrite <- (take_drop 3 sh) at 3. rewrite !size_of_app.
  change (size_of (1 :: drop 3 sh)) with (1 * size_of (drop 3 sh)). lia.
Qed.

(** X21. [_fill_with_ones] raises [FileNotFoundError] when the input cannot
    be loaded; otherwise it writes, at [out.nii.gz] in the working directory,
    an image with the shape, the affine and the header of the input that has
    one voxel for each place of the shape, every one equal to 1, whatever the
    voxels of the input are; as a mask it selects every voxel of an array of
    its shape. Every other file of the store is left as it was. *)
Theorem fill_with_ones_spec cwd in_file (fs : gmap string image) :
  match fs !! in_file with
  | None => _fill_with_ones cwd in_file fs = Raise (FileNotFoundError in_file)
  | Some nii =>
      ∃ out,
        _fill_with_ones cwd in_file fs =
          Ok (abspath cwd "out.nii.gz", <[abspath cwd "out.nii.gz" := out]> fs) ∧
        well_shaped out ∧
        (∀ i v, dataobj out !! i = Some v → v = 1%float) ∧
        shape out = shape nii ∧ affine out = affine nii ∧
        header out = header nii ∧
        (∀ data, List.length data = size_of (shape nii) →
                 select data (dataobj out) = data) ∧
        (∀ nii', shape nii' = shape nii → affine nii' = affine nii →
                 header nii' = header nii →
                 written_image (_fill_with_ones cwd in_file
                                  (<[in_file := nii']> fs)) =
                   Some (abspath cwd "out.nii.gz", out))
  end.
Proof.
  unfold _fill_with_ones, nb_load.
  destruct (fs !! in_file) as [nii|]; [|reflexivity]. simpl.
  eexists. split; [reflexivity|]. simpl.
  assert (Hlen : List.length (np_ones (shape nii)) = size_of (shape nii))
    by apply repeat_length.
  assert (Hone : ∀ i v, np_ones (shape nii) !! i = Some v → v = 1%float).
  { intros i v Hv. apply list_elem_of_lookup_2, list_elem_of_In in Hv.
    now apply repeat_spec in Hv. }
  repeat apply conj; auto.
  - intros data Hd. apply select_all_positive; [|congruence].
    apply Forall_forall. intros v Hv. apply list_elem_of_In in Hv.
    apply repeat_spec in Hv. now subst.
  - intros nii' Hs Ha Hh. rewrite lookup_insert_eq. simpl.
    rewrite lookup_insert_eq. simpl. now rewrite Hs, Ha, Hh.
Qed.

Example fill_with_ones_example :
  written_image (_fill_with_ones "/work" "vsm.nii" ex_fs) =
  Some ("/work/out.nii.gz",
        Image [2; 2; 1] [1; 1; 1; 1]%float ex_affine ex_header).
Proof. vm_compute. reflexivity. Qed.

Section AddDimensionProperties.

Variable astype_f4 : float → float.

(** X22. For an image that can be loaded, [_add_dimension] raises
    [IndexError] when the array has fewer than four axes; otherwise it
    writes, at [warpfield.nii.gz] in the working directory, an image whose
    shape is the shape of the input with an axis of length one put after the
    third, so with the same number of voxels; the voxels are those of the
    input, each cast to single precision, in the same order; the affine is
    the input's; the header says single precision and vector intent and
    agrees with the header of the input in every other field. *)
Theorem add_dimension_spec cwd in_file (fs : gmap string image) nii :
  fs !! in_file = Some nii →
  if 4 <=? List.length (shape nii)
  then ∃ out,
         _add_dimension astype_f4 cwd in_file fs =
           Ok (abspath cwd "warpfield.nii.gz",
               <[abspath cwd "warpfield.nii.gz" := out]> fs) ∧
         List.length (shape out) = S (List.length (shape nii)) ∧
         shape out !! 3 = Some 1 ∧
         (∀ i, i < 3 → shape out !! i = shape nii !! i) ∧
         (∀ i, 3 ≤ i → shape out !! S i = shape nii !! i) ∧
         size_of (shape out) = size_of (shape nii) ∧
         dataobj out = List.map astype_f4 (dataobj nii) ∧
         (well_shaped nii → well_shaped out) ∧
         affine out = affine nii ∧
         header out !! "datatype" = Some "<f4" ∧
         header out !! "intent_code" = Some "vector" ∧
         (∀ k, k ∉ ["datatype"; "bitpix"; "intent_code"; "intent_name";
                    "intent_p1"; "intent_p2"; "intent_p3"] →
               header out !! k = header nii !! k)
  else _add_dimension astype_f4 cwd in_file fs = Raise IndexError.
Proof.
  intros Hin. unfold _add_dimension, nb_load, newaxis_after_third.
  rewrite Hin. cbn [mbind result_bind].
  destruct (4 <=? List.length (shape nii)) eqn:Hdim; [|reflexivity].
  apply Nat.leb_le in Hdim.
  eexists. split; [reflexivity|]. cbn [shape dataobj affine header].
  assert (Htake : List.length (take 3 (shape nii)) = 3)
    by (rewrite length_take; lia).
  repeat apply conj.
  - rewrite length_app, Htake. simpl. rewrite length_drop. lia.
  - rewrite lookup_app_r by lia. now rewrite Htake.
  - intros i Hi. rewrite lookup_app_l by lia. now apply lookup_take_lt.
  - intros i Hi. rewrite lookup_app_r by lia. rewrite Htake.
    replace (S i - 3) with (S (i - 3)) by lia. simpl.
    rewrite lookup_drop. f_equal. lia.
  - apply size_of_newaxis.
  - reflexivity.
  - unfold well_shaped. simpl. rewrite length_map, size_of_newaxis. auto.
  - reflexivity.
  - unfold set_intent, set_data_dtype.
    rewrite !lookup_insert_ne by discriminate. apply lookup_insert_eq.
  - unfold set_intent, set_data_dtype.
    rewrite !lookup_insert_ne by discriminate. apply lookup_insert_eq.
  - intros k Hk. rewrite !not_elem_of_cons in Hk.
    destruct Hk as (H1 & H2 & H3 & H4 & H5 & H6 & H7 & _).
    unfold set_intent, set_data_dtype.
    rewrite !lookup_insert_ne by congruence. reflexivity.
Qed.

End AddDimensionProperties.

Lemma add_dimension_spec_witness :
  ∃ out,
    _add_dimension (fun v => v) "/work" "warp.nii" (<["warp.nii" := ex_warp]> ex_fs) =
      Ok (abspath "/work" "warpfield.nii.gz",
          <[abspath "/work" "warpfield.nii.gz" := out]>
            (<["warp.nii" := ex_warp]> ex_fs)) ∧
    List.length (shape out) = S (List.length (shape ex_warp)) ∧
    shape out !! 3 = Some 1 ∧
    (∀ i, i < 3 → shape out !! i = shape ex_warp !! i) ∧
    (∀ i, 3 ≤ i → shape out !! S i = shape ex_warp !! i) ∧
    size_of (shape out) = size_of (shape ex_warp) ∧
    dataobj out = List.map (fun v => v) (dataobj ex_warp) ∧
    (well_shaped ex_warp → well_shaped out) ∧
    affine out = affine ex_warp ∧
    header out !! "datatype" = Some "<f4" ∧
    header out !! "intent_code" = Some "vector" ∧
    (∀ k, k ∉ ["datatype"; "bitpix"; "intent_code"; "intent_name";
               "intent_p1"; "intent_p2"; "intent_p3"] →
          header out !! k = header ex_warp !! k).
Proof.
  apply (add_dimension_spec (fun v => v) "/work" "warp.nii"
           (<["warp.nii" := ex_warp]> ex_fs) ex_warp).
  apply lookup_insert_eq.
Defined.

Example add_dimension_example :
  (shape ∘ snd) <$> written_image
     (_add_dimension (fun v => v) "/work" "warp.nii" (<["warp.nii" := ex_warp]> ex_fs))
    = Some [2; 2; 1; 1; 3]
  ∧ _add_dimension (fun v => v) "/work" "vsm.nii" ex_fs = Raise IndexError.
Proof. split; vm_compute; reflexivity. Qed.
